(** * The arcade game: entity model, collision detector and game loop

    A shallow embedding of [js/app.js] (the [Enemy] and [Player] classes and
    the event listeners) and of the game engine that follows it in the same
    source file ([main], [update], [checkCollisions], [render],
    [checkGameStatus], [stopGame], [startGame], ...).

    Global mutable state is passed explicitly.  Every call the program makes
    to its host (canvas drawing, frame scheduling, button attributes) is
    appended to a trace, so that the order of phases inside a tick can be
    observed. *)

From Stdlib Require Import ZArith QArith Qround List String Ascii Bool Lia.
From Stdlib Require Import DecimalString.
Import ListNotations.

Local Open Scope string_scope.
Local Open Scope Z_scope.

(** ** JavaScript numbers

    A property that is declared but not yet assigned holds [undefined];
    arithmetic on [undefined] yields [NaN].  Fields that only ever hold
    integers are typed [js Z]; an enemy's horizontal position, which is
    advanced by [speed * dt], is typed [js Q].

    Arithmetic on [Q] is exact: the rounding that IEEE 754 doubles apply to
    each sum, product and quotient is not modelled.  The statements below
    that concern positions either use the results of that arithmetic as
    they come or hold whichever way the results are rounded. *)

Inductive js (A : Type) : Type :=
| undefined
| NaN
| num (a : A).

Arguments undefined {A}.
Arguments NaN {A}.
Arguments num {A} a.

(** Unary and binary arithmetic: anything that is not a number gives NaN. *)
Definition js_lift1 {A B : Type} (f : A -> B) (a : js A) : js B :=
  match a with
  | num x => num (f x)
  | _ => NaN
  end.

Definition js_lift2 {A B C : Type} (f : A -> B -> C) (a : js A) (b : js B) : js C :=
  match a, b with
  | num x, num y => num (f x y)
  | _, _ => NaN
  end.

(** Relational operators [<], [>], [<=], [>=]: false unless both sides are
    numbers. *)
Definition js_rel {A B : Type} (r : A -> B -> bool) (a : js A) (b : js B) : bool :=
  match a, b with
  | num x, num y => r x y
  | _, _ => false
  end.

(** Loose equality [==] between two values that are numbers or undefined. *)
Definition js_eq {A : Type} (eqb : A -> A -> bool) (a b : js A) : bool :=
  match a, b with
  | undefined, undefined => true
  | num x, num y => eqb x y
  | _, _ => false
  end.

(** Truthiness, as tested by [if (requestId)]. *)
Definition js_truthy (a : js Z) : bool :=
  match a with
  | num z => negb (z =? 0)
  | _ => false
  end.

(** [a !== undefined] *)
Definition js_defined {A : Type} (a : js A) : bool :=
  match a with
  | undefined => false
  | _ => true
  end.

Definition js_inc (a : js Z) : js Z := js_lift1 (fun z => z + 1) a.
Definition js_dec (a : js Z) : js Z := js_lift1 (fun z => z - 1) a.

Definition js_toQ (a : js Z) : js Q :=
  match a with
  | undefined => undefined
  | NaN => NaN
  | num z => num (inject_Z z)
  end.

(** Number to string conversion, as performed by [string + number]. *)
Definition js_toString (a : js Z) : string :=
  match a with
  | undefined => "undefined"
  | NaN => "NaN"
  | num z => NilZero.string_of_int (Z.to_int z)
  end.

Definition Qgtb (a b : Q) : bool := negb (Qle_bool a b).

(** ** Global constants of app.js *)

Definition PLAYER_WIDTH_OFFSET : Z := 23.
Definition VISIBLE_ROW_HEIGHT : Z := 83.
Definition ROW_HEIGHT_OFFSET : Z := 25.

Definition gsCollisionLimit : Z := 3.
Definition gsEnemySpeedAdjustor : Z := 0.
Definition gsEnemyCount : nat := 3.
Definition gsBoardColumns : Z := 5.

(** ** Host services used by the entities *)

(** [Resources.get(url).width]: the image cache is not part of app.js; it is
    a table from image urls to pixel widths. *)
Definition Resources := string -> Z.

(** [Math.random()]: an oracle giving the successive results, and the number
    of calls made so far. *)
Record Random : Type := mkRandom {
  draw : nat -> Q;
  calls : nat
}.

Definition Math_random (g : Random) : Q * Random :=
  (draw g (calls g), mkRandom (draw g) (S (calls g))).

(** The primitive values. *)
Inductive primitive : Type :=
| p_undefined
| p_null
| p_bool (b : bool)
| p_number (n : js Z)
| p_string (s : string).

(** The values that [handleInput] can be called with.  The keyup listener
    hands it the result of [allowedKeys[e.keyCode]], a string or undefined;
    any other caller may pass any primitive value, or an object.  An object
    is given by the primitive value that the conversion ToPrimitive yields
    for it, which is all that [==] reads of it: the array [['up']] and
    [new String('up')] both convert to the string 'up'.  (Objects whose
    conversion throws are left out.) *)
Inductive value : Type :=
| v_undefined
| v_null
| v_bool (b : bool)
| v_number (n : js Z)
| v_string (s : string)
| v_object (toPrimitive : primitive).

(** [v == s] for a string literal [s] that is not a numeric literal (every
    literal compared against in app.js is one of those): a string equals it
    when it is the same string; undefined and null are equal only to each
    other; a number or a boolean is compared with ToNumber(s), which is NaN;
    an object is first converted to a primitive, which is then compared in
    the same way. *)
Definition eq_literal (v : value) (s : string) : bool :=
  match v with
  | v_string t => String.eqb t s
  | v_object (p_string t) => String.eqb t s
  | _ => false
  end.

(** ** Player *)

Module Player.

Record t : Type := mk {
  col : js Z;
  row : js Z;
  x : js Z;
  y : js Z;
  collisionCount : js Z;
  sprite : string
}.

(** [new Player]: only the sprite is assigned. *)
Definition new : t := mk undefined undefined undefined undefined undefined "images/char-boy.png".

Definition goToHome (this : t) : t :=
  mk (num 2) (num 5) (x this) (y this) (collisionCount this) (sprite this).

(** [crash] works on the global [player], which is the only instance. *)
Definition crash (player : t) : t :=
  let player := goToHome player in
  mk (col player) (row player) (x player) (y player)
     (js_inc (collisionCount player)) (sprite player).

Definition update (res : Resources) (this : t) : t :=
  let x' := js_lift1 (fun c => c * res (sprite this)) (col this) in
  let y' := js_lift1 (fun r => r * VISIBLE_ROW_HEIGHT - ROW_HEIGHT_OFFSET) (row this) in
  mk (col this) (row this) x' y' (collisionCount this) (sprite this).

Definition set_col (c : js Z) (this : t) : t :=
  mk c (row this) (x this) (y this) (collisionCount this) (sprite this).

Definition set_row (r : js Z) (this : t) : t :=
  mk (col this) r (x this) (y this) (collisionCount this) (sprite this).

Definition handleInput (keyMove : value) (this : t) : t :=
  let minCol := 0 in
  let maxCol := gsBoardColumns - 1 in
  let minRow := 0 in
  let maxRow := 5 in
  let this := if eq_literal keyMove "left" then set_col (js_dec (col this)) this else this in
  let this := if eq_literal keyMove "up" then set_row (js_dec (row this)) this else this in
  let this := if eq_literal keyMove "right" then set_col (js_inc (col this)) this else this in
  let this := if eq_literal keyMove "down" then set_row (js_inc (row this)) this else this in
  let this := if js_rel Z.gtb (col this) (num maxCol) then set_col (num maxCol) this else this in
  let this := if js_rel Z.ltb (col this) (num minCol) then set_col (num minCol) this else this in
  let this := if js_rel Z.ltb (row this) (num minRow) then set_row (num minRow) this else this in
  let this := if js_rel Z.gtb (row this) (num maxRow) then set_row (num maxRow) this else this in
  this.

End Player.

(** ** Enemy *)

Module Enemy.

Record t : Type := mk {
  x : js Q;
  y : js Z;
  speed : js Z;
  sprite : string
}.

Definition new : t := mk undefined undefined undefined "images/enemy-bug.png".

Definition setSpeed (g : Random) : js Z * Random :=
  let maxSpeed := 400 in
  let minSpeed := 100 in
  let (r, g) := Math_random g in
  (num (Qfloor (r * inject_Z (maxSpeed - minSpeed)) + minSpeed + gsEnemySpeedAdjustor), g).

Definition setRow (g : Random) : js Z * Random :=
  let maxRow := 4 in
  let minRow := 1 in
  let (r, g) := Math_random g in
  (num ((Qfloor (r * inject_Z (maxRow - minRow)) + minRow) * VISIBLE_ROW_HEIGHT
        - ROW_HEIGHT_OFFSET), g).

Definition spawn (this : t) (g : Random) : t * Random :=
  let (s, g) := setSpeed g in
  let (r, g) := setRow g in
  (mk (num 0%Q) r s (sprite this), g).

Definition update (res : Resources) (dt : js Q) (this : t) (g : Random) : t * Random :=
  let x' := js_lift2 Qplus (x this)
              (js_lift2 (fun s d => inject_Z s * d)%Q (speed this) dt) in
  let this := mk x' (y this) (speed this) (sprite this) in
  if js_rel Qgtb (x this) (num (inject_Z (res (sprite this) * gsBoardColumns)))
  then spawn this g
  else (this, g).

(** The overlap test of [collided], on the pixel position of the player. *)
Definition overlaps (res : Resources) (this : t) (player : Player.t) : bool :=
  let pLeft := js_lift1 (fun px => px + PLAYER_WIDTH_OFFSET) (Player.x player) in
  let pRight := js_lift1 (fun l => l + (res (sprite this) - PLAYER_WIDTH_OFFSET)) pLeft in
  let eLeft := x this in
  let eRight := js_lift1 (fun l => l + inject_Z (res (sprite this)))%Q eLeft in
  js_rel (fun e p => Qle_bool (inject_Z p) e) eRight pLeft
  && js_rel (fun p e => Qle_bool e (inject_Z p)) pRight eLeft.

(** [collided] reads and updates the global [player]. *)
Definition collided (res : Resources) (this : t) (player : Player.t) : bool * Player.t :=
  if js_eq Z.eqb (y this) (Player.y player) then
    if overlaps res this player then (true, Player.crash player)
    else (false, player)
  else (false, player).

End Enemy.

(** ** The host: canvas, buttons and frame scheduler *)

Inductive Button : Type := buttonStart | buttonReset | buttonStop.

(** One entry per call the program makes to its host. *)
Inductive Effect : Type :=
| drawImage (img : string) (x y : js Q)
| clearRect (x y w h : Z)
| fillRect (x y w h : Z)
| strokeRect (x y w h : Z)
| fillText (txt : string) (x y : Q)
| set_font (v : string)
| set_textAlign (v : string)
| set_fillStyle (v : string)
| set_strokeStyle (v : string)
| set_disabled (btn : Button) (v : bool)
| requestAnimationFrame (id : Z)
| cancelAnimationFrame (id : js Z).

Definition canvas_width : Z := 505.
Definition canvas_height : Z := 606.

(** ** The global state

    [player] and [allEnemies] are the globals of app.js; [requestId] and
    [lastTime] are the variables of the engine's closure; [buttons] holds the
    [disabled] attribute of the three buttons; [frames] is the browser's list
    of pending animation-frame callbacks (each of them is [main]) and
    [nextFrame] the handle the next request will return. *)
Record Buttons : Type := mkButtons {
  start_disabled : bool;
  reset_disabled : bool;
  stop_disabled : bool
}.

(** Start is the only button available / the only button not available. *)
Definition buttons_idle : Buttons := mkButtons false true true.
Definition buttons_playing : Buttons := mkButtons true false false.

Record World : Type := mkWorld {
  player : Player.t;
  allEnemies : list Enemy.t;
  requestId : js Z;
  lastTime : js Z;
  buttons : Buttons;
  frames : list Z;
  nextFrame : Z;
  resources : Resources;
  random : Random;
  trace : list Effect
}.

Definition with_player (p : Player.t) (w : World) : World :=
  mkWorld p (allEnemies w) (requestId w) (lastTime w) (buttons w) (frames w)
          (nextFrame w) (resources w) (random w) (trace w).

Definition with_enemies (es : list Enemy.t) (g : Random) (w : World) : World :=
  mkWorld (player w) es (requestId w) (lastTime w) (buttons w) (frames w)
          (nextFrame w) (resources w) g (trace w).

Definition with_requestId (r : js Z) (w : World) : World :=
  mkWorld (player w) (allEnemies w) r (lastTime w) (buttons w) (frames w)
          (nextFrame w) (resources w) (random w) (trace w).

Definition with_lastTime (t : js Z) (w : World) : World :=
  mkWorld (player w) (allEnemies w) (requestId w) t (buttons w) (frames w)
          (nextFrame w) (resources w) (random w) (trace w).

Definition with_frames (fs : list Z) (w : World) : World :=
  mkWorld (player w) (allEnemies w) (requestId w) (lastTime w) (buttons w) fs
          (nextFrame w) (resources w) (random w) (trace w).

Definition emit (es : list Effect) (w : World) : World :=
  mkWorld (player w) (allEnemies w) (requestId w) (lastTime w) (buttons w) (frames w)
          (nextFrame w) (resources w) (random w) (trace w ++ es).

(** [btn.disabled] *)
Definition disabled (w : World) (btn : Button) : bool :=
  match btn with
  | buttonStart => start_disabled (buttons w)
  | buttonReset => reset_disabled (buttons w)
  | buttonStop => stop_disabled (buttons w)
  end.

(** [win.requestAnimationFrame(main)]: registers the callback and returns its
    handle. *)
Definition win_requestAnimationFrame (w : World) : Z * World :=
  let id := nextFrame w in
  (id, mkWorld (player w) (allEnemies w) (requestId w) (lastTime w) (buttons w)
               (frames w ++ [id]) (id + 1) (resources w) (random w)
               (trace w ++ [requestAnimationFrame id])).

(** [win.cancelAnimationFrame(id)]: removes the callback if it is pending. *)
Definition win_cancelAnimationFrame (id : js Z) (w : World) : World :=
  let fs := match id with
            | num i => filter (fun j => negb (j =? i)) (frames w)
            | _ => frames w
            end in
  emit [cancelAnimationFrame id] (with_frames fs w).

(** ** The engine *)

Definition setButtonDisabled (btn : Button) (disabledState : bool) (w : World) : World :=
  mkWorld (player w) (allEnemies w) (requestId w) (lastTime w)
          (match btn with
           | buttonStart => mkButtons disabledState (reset_disabled (buttons w))
                                      (stop_disabled (buttons w))
           | buttonReset => mkButtons (start_disabled (buttons w)) disabledState
                                      (stop_disabled (buttons w))
           | buttonStop => mkButtons (start_disabled (buttons w))
                                     (reset_disabled (buttons w)) disabledState
           end)
          (frames w) (nextFrame w) (resources w) (random w)
          (trace w ++ [set_disabled btn disabledState]).

Definition rowImages : list string :=
  [ "images/water-block.png";
    "images/stone-block.png";
    "images/stone-block.png";
    "images/stone-block.png";
    "images/grass-block.png";
    "images/grass-block.png" ].

(** The integers [from, from+1, ..., from+n-1]: the values of a loop counter. *)
Fixpoint counter (from : Z) (n : nat) : list Z :=
  match n with
  | O => []
  | S n' => from :: counter (from + 1) n'
  end.

Definition renderScore (w : World) : World :=
  let txt := "Lives remaining: "
             ++ js_toString (js_lift1 (fun c => gsCollisionLimit - c)
                                      (Player.collisionCount (player w))) in
  let w := emit [clearRect 0 0 canvas_width 50] w in
  let w := emit [set_font "Bold 12pt tahoma"; set_textAlign "right"; set_fillStyle "#000"] w in
  if js_truthy (requestId w)
  then emit [fillText txt (inject_Z (canvas_width - 30)) 35%Q] w
  else w.

Definition renderBoard (w : World) : World :=
  let tiles :=
    flat_map (fun row =>
      let img := nth (Z.to_nat row) rowImages "" in
      map (fun col =>
             drawImage img (num (inject_Z (col * resources w img)))
                           (num (inject_Z (row * VISIBLE_ROW_HEIGHT))))
          (counter 0 (Z.to_nat gsBoardColumns)))
      (counter 0 (List.length rowImages)) in
  renderScore (emit tiles w).

Definition Enemy_render (this : Enemy.t) : Effect :=
  drawImage (Enemy.sprite this) (Enemy.x this) (js_toQ (Enemy.y this)).

Definition Player_render (this : Player.t) : Effect :=
  drawImage (Player.sprite this) (js_toQ (Player.x this)) (js_toQ (Player.y this)).

Definition renderEntities (w : World) : World :=
  let w := emit (map Enemy_render (allEnemies w)) w in
  emit [Player_render (player w)] w.

Definition render (w : World) : World :=
  renderEntities (renderBoard w).

Definition readyStart (w : World) : World :=
  let w := renderBoard w in
  let w := setButtonDisabled buttonStart false w in
  let w := setButtonDisabled buttonReset true w in
  setButtonDisabled buttonStop true w.

Definition stopGame (w : World) : World :=
  let w := if js_truthy (requestId w)
           then with_requestId undefined (win_cancelAnimationFrame (requestId w) w)
           else w in
  readyStart w.

Definition displayStatus (txt rectColor txtColor : string) (w : World) : World :=
  emit [ set_font "Bold 48px Calibri";
         set_textAlign "center";
         set_fillStyle rectColor;
         set_strokeStyle txtColor;
         fillRect 0 120 canvas_width 140;
         strokeRect 0 120 canvas_width 140;
         set_fillStyle txtColor;
         fillText txt (canvas_width # 2) 200%Q ] w.

Definition gameOver (outcome : string) (w : World) : World :=
  let w := stopGame w in
  if String.eqb outcome "won"
  then displayStatus "Woo hoo! You won!" "#ffd738" "#3500a8" w
  else displayStatus "Game over - you lose" "#000" "#fff" w.

Definition checkGameStatus (w : World) : World :=
  let w := if js_rel Z.geb (Player.collisionCount (player w)) (num gsCollisionLimit)
           then gameOver "lost" w else w in
  if js_eq Z.eqb (Player.row (player w)) (num 0)
  then gameOver "won" w else w.

(** Truthiness of a callback's result. *)
Definition value_truthy (v : value) : bool :=
  match v with
  | v_undefined | v_null => false
  | v_bool b => b
  | v_number n => js_truthy n
  | v_string s => negb (String.eqb s "")
  | v_object _ => true
  end.

(** [Array.prototype.forEach] over the enemies, with a callback that updates
    the enemy it is given and draws from [Math.random]. *)
Fixpoint Array_forEach (cb : Enemy.t -> Random -> Enemy.t * Random)
         (arr : list Enemy.t) (g : Random) : list Enemy.t * Random :=
  match arr with
  | [] => ([], g)
  | e :: rest =>
      let (e', g) := cb e g in
      let (rest', g) := Array_forEach cb rest g in
      (e' :: rest', g)
  end.

(** [Array.prototype.some]: calls the callback on each element in turn and
    stops at the first element for which the result is truthy.  The callback
    may update the state [S] it closes over. *)
Fixpoint Array_some {A S : Type} (cb : A -> S -> value * S) (arr : list A) (s : S) : bool * S :=
  match arr with
  | [] => (false, s)
  | a :: rest =>
      let (r, s) := cb a s in
      if value_truthy r then (true, s) else Array_some cb rest s
  end.

(** The callback passed to [some] is [function(enemy) { enemy.collided(); }]:
    its body has no [return], so its result is [undefined]. *)
Definition checkCollisions (w : World) : World :=
  let cb := fun (enemy : Enemy.t) (p : Player.t) =>
              let (_, p) := Enemy.collided (resources w) enemy p in
              (v_undefined, p) in
  with_player (snd (Array_some cb (allEnemies w) (player w))) w.

Definition updateEntities (dt : js Q) (w : World) : World :=
  let (es, g) := Array_forEach (Enemy.update (resources w) dt) (allEnemies w) (random w) in
  let w := with_enemies es g w in
  with_player (Player.update (resources w) (player w)) w.

Definition update (dt : js Q) (w : World) : World :=
  checkCollisions (updateEntities dt w).

(** [main], with the value [now] read from [Date.now()]. *)
Definition main (now : Z) (w : World) : World :=
  let dt := js_lift1 (fun ms => inject_Z ms / 1000)%Q
                     (js_lift2 Z.sub (num now) (lastTime w)) in
  let w := update dt w in
  let w := render w in
  let w := checkGameStatus w in
  let w := with_lastTime (num now) w in
  if js_defined (requestId w)
  then let (id, w) := win_requestAnimationFrame w in with_requestId (num id) w
  else w.

(** [init], with the two successive readings of [Date.now()]: its own and
    that of [main]. *)
Definition init (t0 t1 : Z) (w : World) : World :=
  main t1 (with_lastTime (num t0) w).

Definition initGameSettings (w : World) : World :=
  let p := player w in
  let w := with_player (Player.mk (Player.col p) (Player.row p) (Player.x p) (Player.y p)
                                  (num 0) (Player.sprite p)) w in
  let w := with_requestId (num 0) w in
  let w := with_player (Player.goToHome (player w)) w in
  let (es, g) := Array_forEach Enemy.spawn (allEnemies w) (random w) in
  with_enemies es g w.

Definition startGame (t0 t1 : Z) (w : World) : World :=
  let w := setButtonDisabled buttonStart true w in
  let w := setButtonDisabled buttonReset false w in
  let w := setButtonDisabled buttonStop false w in
  let w := initGameSettings w in
  init t0 t1 w.

Definition resetGame (t0 t1 : Z) (w : World) : World :=
  startGame t0 t1 (stopGame w).

(** The keyup listener. *)
Definition allowedKeys (keyCode : Z) : value :=
  if keyCode =? 37 then v_string "left"
  else if keyCode =? 38 then v_string "up"
  else if keyCode =? 39 then v_string "right"
  else if keyCode =? 40 then v_string "down"
  else v_undefined.

Definition keyup (keyCode : Z) (w : World) : World :=
  with_player (Player.handleInput (allowedKeys keyCode) (player w)) w.

(** ** Events delivered by the browser

    A click reaches its listener only when the button is not disabled; an
    animation frame runs the oldest pending callback.  The clock readings
    taken while an event is handled are part of the event. *)
Inductive Event : Type :=
| ClickStart (t0 t1 : Z)
| ClickReset (t0 t1 : Z)
| ClickStop
| KeyUp (keyCode : Z)
| AnimationFrame (now : Z).

Definition step (e : Event) (w : World) : option World :=
  match e with
  | ClickStart t0 t1 =>
      if disabled w buttonStart then None else Some (startGame t0 t1 w)
  | ClickReset t0 t1 =>
      if disabled w buttonReset then None else Some (resetGame t0 t1 w)
  | ClickStop =>
      if disabled w buttonStop then None else Some (stopGame w)
  | KeyUp k => Some (keyup k w)
  | AnimationFrame now =>
      match frames w with
      | [] => None
      | _ :: rest => Some (main now (with_frames rest w))
      end
  end.

Fixpoint run (es : list Event) (w : World) : option World :=
  match es with
  | [] => Some w
  | e :: rest =>
      match step e w with
      | Some w' => run rest w'
      | None => None
      end
  end.

(** The state when the script has been evaluated, before the images are
    loaded. *)
Definition boot (res : Resources) (rnd : nat -> Q) : World :=
  mkWorld Player.new (repeat Enemy.new gsEnemyCount) (num 0) undefined
          (mkButtons false false false) [] 1 res (mkRandom rnd 0) [].

(** The state after [Resources.onReady] has called [readyStart]. *)
Definition initialWorld (res : Resources) (rnd : nat -> Q) : World :=
  readyStart (boot res rnd).

(** [Math.random] returns a number in [0, 1). *)
Definition random_ok (rnd : nat -> Q) : Prop :=
  forall k, (0 <= rnd k)%Q /\ (rnd k < 1)%Q.

Inductive reachable : World -> Prop :=
| reachable_initial (res : Resources) (rnd : nat -> Q) :
    random_ok rnd -> reachable (initialWorld res rnd)
| reachable_step (w w' : World) (e : Event) :
    reachable w -> step e w = Some w' -> reachable w'.

(** ** What an operation appends to the trace *)

Definition output (f : World -> World) (w : World) : list Effect :=
  skipn (List.length (trace w)) (trace (f w)).

(** What [renderScore] writes. *)
Definition score_out (w : World) : list Effect :=
  ([clearRect 0 0 canvas_width 50; set_font "Bold 12pt tahoma"; set_textAlign "right";
    set_fillStyle "#000"]
   ++ if js_truthy (requestId w)
      then [fillText ("Lives remaining: "
                      ++ js_toString (js_lift1 (fun c => gsCollisionLimit - c)
                                               (Player.collisionCount (player w))))%string
                     (inject_Z (canvas_width - 30)) 35%Q]
      else [])%list.

(** What [renderBoard] draws before the score. *)
Definition board_tiles (w : World) : list Effect :=
  flat_map (fun row =>
    let img := nth (Z.to_nat row) rowImages "" in
    map (fun col =>
           drawImage img (num (inject_Z (col * resources w img)))
                         (num (inject_Z (row * VISIBLE_ROW_HEIGHT))))
        (counter 0 (Z.to_nat gsBoardColumns)))
    (counter 0 (List.length rowImages)).

Definition board_out (w : World) : list Effect := (board_tiles w ++ score_out w)%list.

Definition entities_out (w : World) : list Effect :=
  (map Enemy_render (allEnemies w) ++ [Player_render (player w)])%list.

(** What [readyStart] and [stopGame] send to the host. *)
Definition readyStart_out (w : World) : list Effect :=
  (board_out w ++ [set_disabled buttonStart false; set_disabled buttonReset true;
                   set_disabled buttonStop true])%list.

Definition stopGame_out (w : World) : list Effect :=
  (if js_truthy (requestId w)
   then cancelAnimationFrame (requestId w) :: readyStart_out (with_requestId undefined w)
   else readyStart_out w)%list.

(** The two terminal conditions tested by [checkGameStatus]. *)
Definition lost_condition (w : World) : bool :=
  js_rel Z.geb (Player.collisionCount (player w)) (num gsCollisionLimit).

Definition won_condition (w : World) : bool :=
  js_eq Z.eqb (Player.row (player w)) (num 0).

(** What [checkGameStatus] sends to the host. *)
Definition status_out (w : World) : list Effect :=
  ((if lost_condition w then output (gameOver "lost") w else [])
   ++ (if won_condition w
       then output (gameOver "won") (if lost_condition w then gameOver "lost" w else w)
       else []))%list.

(** The messages of the status banners: [displayStatus] writes its text at
    height 200, the score is written at height 35. *)
Definition banners (tr : list Effect) : list string :=
  flat_map (fun e => match e with
                     | fillText txt _ y => if Qeq_bool y 200 then [txt] else []
                     | _ => []
                     end) tr.

(** The effects that schedule or cancel a tick. *)
Definition scheduling (e : Effect) : bool :=
  match e with
  | requestAnimationFrame _ | cancelAnimationFrame _ => true
  | _ => false
  end.

(** The enemies that [collided] reports against a player: same row, and
    overlapping visible edges. *)
Definition hits (res : Resources) (p : Player.t) (es : list Enemy.t) : list Enemy.t :=
  filter (fun e => js_eq Z.eqb (Enemy.y e) (Player.y p) && Enemy.overlaps res e p) es.

(** The game is in progress when [requestId] is truthy (the test used by
    [renderScore] and [stopGame]). *)
Definition inProgress (w : World) : bool := js_truthy (requestId w).

(** The tick in the order of the specification: status evaluation before
    rendering. *)
Definition tick_status_before_render (now : Z) (w : World) : World :=
  let dt := js_lift1 (fun ms => inject_Z ms / 1000)%Q
                     (js_lift2 Z.sub (num now) (lastTime w)) in
  let w := update dt w in
  let w := checkGameStatus w in
  let w := render w in
  let w := with_lastTime (num now) w in
  if js_defined (requestId w)
  then let (id, w) := win_requestAnimationFrame w in with_requestId (num id) w
  else w.


(** The banner that [gameOver] displays. *)
Definition gameOver_message (outcome : string) : string :=
  if String.eqb outcome "won" then "Woo hoo! You won!" else "Game over - you lose".

(** The value of [requestId] and the pending callbacks after [stopGame]. *)
Definition stopped_requestId (w : World) : js Z :=
  if js_truthy (requestId w) then undefined else requestId w.

Definition stopped_frames (w : World) : list Z :=
  if js_truthy (requestId w)
  then match requestId w with
       | num i => filter (fun j => negb (j =? i)) (frames w)
       | _ => frames w
       end
  else frames w.

(** The state after [stopGame], with what was sent to the host. *)
Definition stopped (w : World) (out : list Effect) : World :=
  mkWorld (player w) (allEnemies w) (stopped_requestId w) (lastTime w) buttons_idle
          (stopped_frames w) (nextFrame w) (resources w) (random w) (trace w ++ out)%list.

(** The scores written by [renderScore] (at height 35). *)
Definition scores (tr : list Effect) : list string :=
  flat_map (fun e => match e with
                     | fillText txt _ y => if Qeq_bool y 35 then [txt] else []
                     | _ => []
                     end) tr.

(** The player is on a cell of the board. *)
Definition placed (p : Player.t) : Prop :=
  exists c r, Player.col p = num c /\ Player.row p = num r
              /\ 0 <= c <= gsBoardColumns - 1 /\ 0 <= r <= 5.



(** The four movement commands. *)
Definition directions : list string := ["up"; "down"; "left"; "right"].

(** The state after [update]: only the entities and the random source change. *)
Definition updated (w : World) (p : Player.t) (es : list Enemy.t) (g : Random) : World :=
  mkWorld p es (requestId w) (lastTime w) (buttons w) (frames w) (nextFrame w)
          (resources w) g (trace w).

(** The elapsed time computed by [main]. *)
Definition elapsed (now : Z) (w : World) : js Q :=
  js_lift1 (fun ms => inject_Z ms / 1000)%Q (js_lift2 Z.sub (num now) (lastTime w)).

(** The end of [main]: [lastTime] is set and, unless [requestId] is
    undefined, another frame is requested. *)
Definition scheduled (now : Z) (w : World) : World :=
  if js_defined (requestId w)
  then mkWorld (player w) (allEnemies w) (num (nextFrame w)) (num now) (buttons w)
               (frames w ++ [nextFrame w])%list (nextFrame w + 1) (resources w) (random w)
               (trace w ++ [requestAnimationFrame (nextFrame w)])%list
  else with_lastTime (num now) w.

(** The state without the record of the calls made to the host. *)
Definition forget_trace (w : World) : World :=
  mkWorld (player w) (allEnemies w) (requestId w) (lastTime w) (buttons w) (frames w)
          (nextFrame w) (resources w) (random w) [].

(** The key codes of the four arrow keys. *)
Definition arrowKeys : list Z := [37; 38; 39; 40].

(** The column and the row that [handleInput] computes, each on its own. *)
Definition col_after (keyMove : value) (c : js Z) : js Z :=
  let c := if eq_literal keyMove "left" then js_dec c else c in
  let c := if eq_literal keyMove "right" then js_inc c else c in
  let c := if js_rel Z.gtb c (num (gsBoardColumns - 1)) then num (gsBoardColumns - 1) else c in
  if js_rel Z.ltb c (num 0) then num 0 else c.

Definition row_after (keyMove : value) (r : js Z) : js Z :=
  let r := if eq_literal keyMove "up" then js_dec r else r in
  let r := if eq_literal keyMove "down" then js_inc r else r in
  let r := if js_rel Z.ltb r (num 0) then num 0 else r in
  if js_rel Z.gtb r (num 5) then num 5 else r.

(** The state in which [startGame] calls [main]: buttons set, settings
    initialised, [lastTime] read. *)
Definition started (t0 : Z) (w : World) : World :=
  mkWorld (Player.mk (num 2) (num 5) (Player.x (player w)) (Player.y (player w)) (num 0)
                     (Player.sprite (player w)))
          (fst (Array_forEach Enemy.spawn (allEnemies w) (random w)))
          (num 0) (num t0) buttons_playing (frames w) (nextFrame w) (resources w)
          (snd (Array_forEach Enemy.spawn (allEnemies w) (random w)))
          (trace w ++ [set_disabled buttonStart true; set_disabled buttonReset false;
                       set_disabled buttonStop false])%list.

(** The rational interval test behind [Enemy.overlaps]: the enemy's right
    edge reaches the player's visible left edge, and the player's right edge
    reaches the enemy's left edge. *)
Definition edges_meet (w px : Z) (ex : Q) : Prop :=
  (inject_Z (px + PLAYER_WIDTH_OFFSET) <= ex + inject_Z w)%Q
  /\ (ex <= inject_Z (px + PLAYER_WIDTH_OFFSET + (w - PLAYER_WIDTH_OFFSET)))%Q.

(** The y coordinate shared by the sprites of a row. *)
Definition row_y (row : Z) : Z := row * VISIBLE_ROW_HEIGHT - ROW_HEIGHT_OFFSET.

(** An enemy as [spawn] leaves it. *)
Definition spawned (e : Enemy.t) : Prop :=
  Enemy.x e = num 0%Q
  /\ (exists k, 1 <= k <= 3 /\ Enemy.y e = num (row_y k))
  /\ (exists s, 100 <= s <= 399 /\ Enemy.speed e = num s).

(** ** Invariants of the reachable states *)

(** A grid coordinate is not yet assigned, or within its bounds. *)
Definition within (lo hi : Z) (a : js Z) : Prop :=
  match a with
  | num z => lo <= z <= hi
  | _ => True
  end.

Definition on_board (p : Player.t) : Prop :=
  within 0 (gsBoardColumns - 1) (Player.col p) /\ within 0 5 (Player.row p).

(** An enemy that has been spawned is in one of the three stone rows. *)
Definition in_hazard_row (e : Enemy.t) : Prop :=
  exists k, 1 <= k <= 3 /\ Enemy.y e = num (k * VISIBLE_ROW_HEIGHT - ROW_HEIGHT_OFFSET).

(** No tick is pending and Start is the only button available. *)
Definition halted (w : World) : Prop :=
  frames w = [] /\ js_truthy (requestId w) = false /\ buttons w = buttons_idle.

(** Exactly one tick is pending, and [requestId] is its handle. *)
Definition looping (w : World) : Prop :=
  exists id, frames w = [id] /\ requestId w = num id /\ id <> 0
             /\ buttons w = buttons_playing.

Definition loop_ok (w : World) : Prop :=
  0 < nextFrame w /\ random_ok (draw (random w)) /\ (halted w \/ looping w).

Definition invariant (w : World) : Prop :=
  on_board (player w) /\ loop_ok w.

(** The collision counter is not yet set, or at most one tick's worth of
    collisions past the last value that lets the game go on. *)
Definition counter_ok (w : World) : Prop :=
  Player.collisionCount (player w) = undefined
  \/ exists c, Player.collisionCount (player w) = num c
               /\ 0 <= c <= gsCollisionLimit - 1 + Z.of_nat gsEnemyCount.

(** The entities while a game is in progress. *)
Definition playing_ok (w : World) : Prop :=
  Forall in_hazard_row (allEnemies w)
  /\ placed (player w)
  /\ exists c, Player.collisionCount (player w) = num c /\ 0 <= c < gsCollisionLimit.

Definition entities_ok (w : World) : Prop :=
  List.length (allEnemies w) = gsEnemyCount
  /\ counter_ok w
  /\ (looping w -> playing_ok w).

(** What a tick sends to the scheduler, and the banners it draws. *)
Definition tick_scheduling (now : Z) (w : World) : list Effect :=
  filter scheduling (output (main now) w).

Definition tick_banners (now : Z) (w : World) : list string :=
  banners (output (main now) w).

(** The rows without enemies: the water row and the two grass rows. *)
Definition safe_row (r : Z) : Prop := r = 0 \/ r = 4 \/ r = 5.

(** The scores a tick writes. *)
Definition tick_scores (now : Z) (w : World) : list string :=
  scores (output (main now) w).

(** The text of the score for a collision counter. *)
Definition score_text (count : js Z) : string :=
  "Lives remaining: " ++ js_toString (js_lift1 (fun c => gsCollisionLimit - c) count).

(** The player after a sequence of key presses. *)
Definition after_keys (keyCodes : list Z) (p : Player.t) : Player.t :=
  fold_left (fun q k => Player.handleInput (allowedKeys k) q) keyCodes p.

(** What was sent to the host between two states. *)
Definition since (w w' : World) : list Effect :=
  skipn (List.length (trace w)) (trace w').

(** ** Concrete scenarios, with the 101 pixel wide images of the game

    ([canvas.width] is 505, five columns of 101 pixels). *)

Definition images101 : Resources := fun _ => 101.

(** Successive results of [Math.random]: the first two enemies get speed 100
    in the third stone row, the last one speed 100 in the first stone row. *)
Definition draws (k : nat) : Q :=
  match k with
  | 1%nat | 3%nat => 2 # 3
  | _ => 0
  end.

Definition world0 : World := initialWorld images101 draws.

(** A game is started, then stopped. *)
Definition stopped_world : World := stopGame (startGame 0 0 world0).

(** A game is started and the player walks up to the third stone row. *)
Definition walk_up : list Event := [ClickStart 0 0; KeyUp 38; KeyUp 38].

(** ... 1.5 seconds later the first two enemies reach the player. *)
Definition clump_tick : list Event := walk_up ++ [AnimationFrame 1500].

(** ... the player walks up again and meets the same two enemies. *)
Definition second_clump_tick : list Event :=
  clump_tick ++ [KeyUp 38; KeyUp 38; AnimationFrame 1510].

(** The state handed to [checkCollisions] in that tick: the entities have
    been updated with dt = 1.5 s. *)
Definition clump_world : World :=
  match run walk_up world0 with
  | Some w => updateEntities (num (1500 # 1000)) (with_frames [] w)
  | None => world0
  end.

(** The state after that tick. *)
Definition overdrawn_world : World :=
  match run second_clump_tick world0 with
  | Some w => w
  | None => world0
  end.

(** A game that has been started. *)
Definition running_world : World := startGame 0 0 world0.

(** An enemy about to leave the 505 pixel wide track. *)
Definition leaving_enemy : Enemy.t :=
  Enemy.mk (num 500%Q) (num 58) (num 100) "images/enemy-bug.png".

(** The second frame of that game, 16 ms after the first. *)
Definition second_frame_world : World := main 16 (with_frames [] running_world).

(** A state in which both terminal conditions hold at once. *)
Definition both_conditions_world : World :=
  with_requestId (num 1)
    (with_player (Player.mk (num 2) (num 0) (num 202) (num (-25)) (num 3)
                            "images/char-boy.png") world0).

(** A running game in which the player has just stepped on the water row,
    with its frame pending ... *)
Definition water_world : World :=
  match run [ClickStart 0 0; KeyUp 38; KeyUp 38; KeyUp 38; KeyUp 38; KeyUp 38] world0 with
  | Some w => w
  | None => world0
  end.

(** ... and as [main] finds it when the frame is run. *)
Definition winning_world : World :=
  match run [ClickStart 0 0; KeyUp 38; KeyUp 38; KeyUp 38; KeyUp 38; KeyUp 38] world0 with
  | Some w => with_frames [] w
  | None => world0
  end.

(** The state after the tick in which the player stands on the water row. *)
Definition won_world : World := main 2000 winning_world.

(** * Proofs *)

Local Open Scope list_scope.

(** ** Elementary facts about the trace *)

(** Reduce the projections of a world that is given by its constructor. *)
Ltac fields :=
  cbn [player allEnemies requestId lastTime buttons frames nextFrame resources random trace
       start_disabled reset_disabled stop_disabled].

Lemma emit_emit (a b : list Effect) (w : World) :
  emit b (emit a w) = emit (a ++ b) w.
Proof. unfold emit; simpl. now rewrite app_assoc. Qed.

Lemma emit_nil (w : World) : emit [] w = w.
Proof. destruct w; unfold emit; simpl. now rewrite app_nil_r. Qed.

Lemma skipn_length_app {A : Type} (l k : list A) : skipn (List.length l) (l ++ k) = k.
Proof. induction l; simpl; auto. Qed.

Lemma output_emit (f : World -> World) (w : World) (out : list Effect) :
  f w = emit out w -> output f w = out.
Proof. intros E. unfold output. rewrite E. simpl. apply skipn_length_app. Qed.

Lemma renderScore_emit (w : World) : renderScore w = emit (score_out w) w.
Proof.
  unfold renderScore, score_out. rewrite !emit_emit. simpl requestId.
  destruct (js_truthy (requestId w)); reflexivity.
Qed.

Lemma renderBoard_emit (w : World) : renderBoard w = emit (board_out w) w.
Proof.
  unfold renderBoard. fold (board_tiles w). rewrite renderScore_emit, emit_emit.
  reflexivity.
Qed.

Lemma render_emit (w : World) : render w = emit (board_out w ++ entities_out w) w.
Proof.
  unfold render, renderEntities, entities_out. rewrite renderBoard_emit.
  unfold emit. fields. now rewrite <- !app_assoc.
Qed.

Lemma board_tiles_drawImage (w : World) (e : Effect) :
  In e (board_tiles w) -> exists img x y, e = drawImage img x y.
Proof.
  intros He. apply in_flat_map in He. destruct He as [r [_ He]].
  apply in_map_iff in He. destruct He as [c [<- _]]. eauto.
Qed.

Lemma banners_drawImage (l : list Effect) :
  (forall e, In e l -> exists img x y, e = drawImage img x y) -> banners l = [].
Proof.
  induction l as [|a l IH]; intros H; [reflexivity|].
  destruct (H a (or_introl eq_refl)) as (img & x & y & ->).
  simpl. apply IH. intros e He. apply H. now right.
Qed.

Lemma banners_app (l k : list Effect) : banners (l ++ k) = banners l ++ banners k.
Proof. apply flat_map_app. Qed.

Lemma board_out_not_scheduling (w : World) :
  forallb (fun e => negb (scheduling e)) (board_out w) = true.
Proof.
  unfold board_out. rewrite forallb_app. apply andb_true_iff; split.
  - rewrite forallb_forall. intros e He.
    destruct (board_tiles_drawImage w e He) as (img & x & y & ->). reflexivity.
  - unfold score_out. destruct (js_truthy (requestId w)); reflexivity.
Qed.

Lemma banners_board_out (w : World) : banners (board_out w) = [].
Proof.
  unfold board_out. rewrite banners_app, (banners_drawImage (board_tiles w)).
  - unfold score_out. destruct (js_truthy (requestId w)); reflexivity.
  - apply board_tiles_drawImage.
Qed.

(** ** Normal forms of the engine's operations *)

Lemma readyStart_eq (w : World) :
  readyStart w =
  mkWorld (player w) (allEnemies w) (requestId w) (lastTime w) buttons_idle (frames w)
          (nextFrame w) (resources w) (random w) (trace w ++ readyStart_out w).
Proof.
  unfold readyStart, readyStart_out. rewrite renderBoard_emit.
  unfold setButtonDisabled, emit. fields. rewrite <- !app_assoc. reflexivity.
Qed.

Lemma stopGame_eq (w : World) : stopGame w = stopped w (stopGame_out w).
Proof.
  unfold stopGame, stopGame_out, stopped, stopped_requestId, stopped_frames.
  destruct (js_truthy (requestId w)).
  - rewrite readyStart_eq. unfold win_cancelAnimationFrame, with_requestId, with_frames, emit.
    fields. now rewrite <- app_assoc.
  - apply readyStart_eq.
Qed.

Lemma stopped_requestId_falsy (w : World) : js_truthy (stopped_requestId w) = false.
Proof. unfold stopped_requestId. destruct (js_truthy (requestId w)) eqn:E; auto. Qed.

Lemma stopped_stopped (w : World) (out out' : list Effect) :
  stopped (stopped w out) out' = stopped w (out ++ out').
Proof.
  assert (R : stopped_requestId (stopped w out) = stopped_requestId w).
  { unfold stopped_requestId at 1. unfold stopped. fields.
    now rewrite stopped_requestId_falsy. }
  assert (F : stopped_frames (stopped w out) = stopped_frames w).
  { unfold stopped_frames at 1. unfold stopped. fields.
    now rewrite stopped_requestId_falsy. }
  unfold stopped at 1. rewrite R, F. unfold stopped. fields. now rewrite app_assoc.
Qed.

Lemma stopGame_not_inProgress (w : World) : js_truthy (requestId (stopGame w)) = false.
Proof.
  rewrite stopGame_eq. apply stopped_requestId_falsy.
Qed.

Lemma displayStatus_banners (txt rectColor txtColor : string) (w : World) :
  banners (output (displayStatus txt rectColor txtColor) w) = [txt].
Proof.
  unfold displayStatus. erewrite output_emit by reflexivity. reflexivity.
Qed.

Lemma readyStart_out_banners (w : World) : banners (readyStart_out w) = [].
Proof. unfold readyStart_out. now rewrite banners_app, banners_board_out. Qed.

Lemma stopGame_out_banners (w : World) : banners (stopGame_out w) = [].
Proof.
  unfold stopGame_out. destruct (js_truthy (requestId w)).
  - change (banners ([cancelAnimationFrame (requestId w)]
                     ++ readyStart_out (with_requestId undefined w)) = []).
    now rewrite banners_app, readyStart_out_banners.
  - apply readyStart_out_banners.
Qed.

Lemma gameOver_eq (outcome : string) (w : World) :
  exists banner,
    banners banner = [gameOver_message outcome]
    /\ forallb (fun e => negb (scheduling e)) banner = true
    /\ gameOver outcome w = emit banner (stopGame w).
Proof.
  unfold gameOver, gameOver_message, displayStatus.
  destruct (String.eqb outcome "won"); eexists; (split; [|split; [|reflexivity]]);
    reflexivity.
Qed.

Lemma gameOver_stopped (outcome : string) (w : World) :
  exists out,
    gameOver outcome w = stopped w out
    /\ banners out = [gameOver_message outcome]
    /\ filter scheduling out = filter scheduling (stopGame_out w).
Proof.
  destruct (gameOver_eq outcome w) as (banner & Hb & Hs & ->).
  exists (stopGame_out w ++ banner). rewrite stopGame_eq. split; [|split].
  - unfold emit, stopped. fields. now rewrite app_assoc.
  - now rewrite banners_app, stopGame_out_banners, Hb.
  - rewrite filter_app. replace (filter scheduling banner) with (@nil Effect).
    + apply app_nil_r.
    + clear -Hs. induction banner as [|e l IH]; [reflexivity|].
      simpl in *. apply andb_true_iff in Hs. destruct Hs as [He Hl].
      destruct (scheduling e); [discriminate|]. now apply IH.
Qed.

(** [checkGameStatus] leaves the state alone unless a terminal condition
    holds, in which case the game is stopped. *)
Lemma checkGameStatus_stopped (w : World) :
  exists out,
    checkGameStatus w
    = (if lost_condition w || won_condition w then stopped w out else w)
    /\ banners out = (if lost_condition w then [gameOver_message "lost"] else [])
                     ++ (if won_condition w then [gameOver_message "won"] else []).
Proof.
  unfold checkGameStatus. fold (lost_condition w).
  destruct (lost_condition w) eqn:L.
  - destruct (gameOver_stopped "lost" w) as (o1 & -> & B1 & _).
    change (js_eq Z.eqb (Player.row (player (stopped w o1))) (num 0))
      with (won_condition w).
    destruct (won_condition w) eqn:V.
    + destruct (gameOver_stopped "won" (stopped w o1)) as (o2 & -> & B2 & _).
      exists (o1 ++ o2). rewrite stopped_stopped, banners_app, B1, B2. auto.
    + exists o1. rewrite B1. auto.
  - fold (won_condition w). destruct (won_condition w) eqn:V.
    + destruct (gameOver_stopped "won" w) as (o2 & -> & B2 & _).
      exists o2. rewrite B2. auto.
    + exists []. auto.
Qed.

(** ** Random draws *)

Lemma Qfloor_scaled (r : Q) (n : Z) :
  (0 <= r)%Q -> (r < 1)%Q -> 0 < n -> 0 <= Qfloor (r * inject_Z n) < n.
Proof.
  intros H0 H1 Hn.
  assert (Hq : (inject_Z 0 < inject_Z n)%Q) by (rewrite <- Zlt_Qlt; exact Hn).
  split.
  - rewrite <- (Qfloor_Z 0). apply Qfloor_resp_le.
    apply Qmult_le_0_compat; [exact H0 | now apply Qlt_le_weak].
  - rewrite Zlt_Qlt. apply Qle_lt_trans with (r * inject_Z n)%Q.
    + apply Qfloor_le.
    + setoid_replace (inject_Z n) with (1 * inject_Z n)%Q at 2 by ring.
      apply Qmult_lt_compat_r; assumption.
Qed.

Lemma setSpeed_range (g : Random) :
  random_ok (draw g) ->
  exists s, 100 <= s < 400
            /\ Enemy.setSpeed g
               = (num (s + gsEnemySpeedAdjustor), mkRandom (draw g) (S (calls g))).
Proof.
  intros Hg. destruct (Hg (calls g)) as [H0 H1].
  unfold Enemy.setSpeed, Math_random.
  pose proof (Qfloor_scaled (draw g (calls g)) (400 - 100) H0 H1 ltac:(lia)) as B.
  exists (Qfloor (draw g (calls g) * inject_Z (400 - 100)) + 100). split; [lia|reflexivity].
Qed.

Lemma setRow_range (g : Random) :
  random_ok (draw g) ->
  exists k, 1 <= k <= 3
            /\ Enemy.setRow g
               = (num (k * VISIBLE_ROW_HEIGHT - ROW_HEIGHT_OFFSET),
                  mkRandom (draw g) (S (calls g))).
Proof.
  intros Hg. destruct (Hg (calls g)) as [H0 H1].
  unfold Enemy.setRow, Math_random.
  pose proof (Qfloor_scaled (draw g (calls g)) (4 - 1) H0 H1 ltac:(lia)) as B.
  exists (Qfloor (draw g (calls g) * inject_Z (4 - 1)) + 1). split; [lia|reflexivity].
Qed.

(** A spawn puts the enemy at the start of the track, in a stone row, with a
    speed in the configured range, and consumes two random numbers. *)
Lemma spawn_spec (this : Enemy.t) (g : Random) :
  random_ok (draw g) ->
  exists s k,
    100 <= s < 400 /\ 1 <= k <= 3
    /\ Enemy.spawn this g
       = (Enemy.mk (num 0%Q) (num (k * VISIBLE_ROW_HEIGHT - ROW_HEIGHT_OFFSET))
                   (num (s + gsEnemySpeedAdjustor)) (Enemy.sprite this),
          mkRandom (draw g) (S (S (calls g)))).
Proof.
  intros Hg. destruct (setSpeed_range g Hg) as (s & Hs & Es).
  destruct (setRow_range (mkRandom (draw g) (S (calls g))) Hg) as (k & Hk & Ek).
  exists s, k. split; [exact Hs|]. split; [exact Hk|].
  unfold Enemy.spawn. rewrite Es, Ek. reflexivity.
Qed.

(** ** Collisions *)

Lemma crash_eq (p : Player.t) :
  Player.crash p
  = Player.mk (num 2) (num 5) (Player.x p) (Player.y p)
              (js_inc (Player.collisionCount p)) (Player.sprite p).
Proof. reflexivity. Qed.

Lemma overlaps_pixels (res : Resources) (e : Enemy.t) (p q : Player.t) :
  Player.x q = Player.x p -> Enemy.overlaps res e q = Enemy.overlaps res e p.
Proof. intros E. unfold Enemy.overlaps. now rewrite E. Qed.

Lemma hits_pixels (res : Resources) (es : list Enemy.t) (p q : Player.t) :
  Player.x q = Player.x p -> Player.y q = Player.y p -> hits res q es = hits res p es.
Proof.
  intros Ex Ey. unfold hits. apply filter_ext. intros e.
  now rewrite Ey, (overlaps_pixels res e p q Ex).
Qed.

Lemma collided_eq (res : Resources) (e : Enemy.t) (p : Player.t) :
  Enemy.collided res e p
  = if js_eq Z.eqb (Enemy.y e) (Player.y p) && Enemy.overlaps res e p
    then (true, Player.crash p) else (false, p).
Proof.
  unfold Enemy.collided.
  destruct (js_eq Z.eqb (Enemy.y e) (Player.y p)); [|reflexivity].
  destruct (Enemy.overlaps res e p); reflexivity.
Qed.

(** The callback of [checkCollisions] never stops [some]: every enemy is
    tested, and the player crashes once per enemy that hits the pixel
    position the player had when the loop began. *)
Lemma some_collided (res : Resources) (es : list Enemy.t) (p : Player.t) :
  Array_some (fun (enemy : Enemy.t) (p : Player.t) =>
                let (_, p) := Enemy.collided res enemy p in (v_undefined, p)) es p
  = (false, Nat.iter (List.length (hits res p es)) Player.crash p).
Proof.
  revert p. induction es as [|e es IH]; intros p; [reflexivity|].
  cbn [Array_some]. rewrite collided_eq. cbn [hits filter]. fold (hits res p es).
  destruct (js_eq Z.eqb (Enemy.y e) (Player.y p) && Enemy.overlaps res e p).
  - cbn [value_truthy]. rewrite IH.
    rewrite (hits_pixels res es p (Player.crash p)) by reflexivity.
    cbn [List.length]. now rewrite Nat.iter_succ_r.
  - cbn [value_truthy]. apply IH.
Qed.

Lemma checkCollisions_eq (w : World) :
  checkCollisions w
  = with_player (Nat.iter (List.length (hits (resources w) (player w) (allEnemies w)))
                          Player.crash (player w)) w.
Proof. unfold checkCollisions. now rewrite some_collided. Qed.

Lemma iter_crash_pixels (n : nat) (p : Player.t) :
  Player.x (Nat.iter n Player.crash p) = Player.x p
  /\ Player.y (Nat.iter n Player.crash p) = Player.y p.
Proof. induction n as [|n IH]; [split; reflexivity|]. cbn [Nat.iter]. exact IH. Qed.

(** C10: [Player.crash] sets the grid cell to home and increments the
    collision counter, and nothing else: the pixel position (x, y) stays as
    it was and is brought up to date only by [Player.update] (no other
    operation on the player writes it).  Hence the collision test of every
    enemy examined after a crash gives the same answer as against the
    player before the crash, and [checkCollisions] as a whole crashes the
    player once for each enemy that hits the pixel position it started with. *)
Theorem crash_keeps_pixel_position (res : Resources) (p : Player.t) (e : Enemy.t)
        (v : value) (w : World) :
  Player.crash p
  = Player.mk (num 2) (num 5) (Player.x p) (Player.y p)
              (js_inc (Player.collisionCount p)) (Player.sprite p)
  /\ fst (Enemy.collided res e (Player.crash p)) = fst (Enemy.collided res e p)
  /\ Player.update res (Player.crash p)
     = Player.mk (num 2) (num 5) (num (2 * res (Player.sprite p)))
                 (num (5 * VISIBLE_ROW_HEIGHT - ROW_HEIGHT_OFFSET))
                 (js_inc (Player.collisionCount p)) (Player.sprite p)
  /\ (Player.x (Player.goToHome p) = Player.x p /\ Player.y (Player.goToHome p) = Player.y p)
  /\ (Player.x (Player.handleInput v p) = Player.x p
      /\ Player.y (Player.handleInput v p) = Player.y p)
  /\ player (checkCollisions w)
     = Nat.iter (List.length (hits (resources w) (player w) (allEnemies w)))
                Player.crash (player w)
  /\ Player.x (player (checkCollisions w)) = Player.x (player w)
  /\ Player.y (player (checkCollisions w)) = Player.y (player w).
Proof.
  split; [reflexivity|]. split.
  { rewrite !collided_eq. cbn [Player.crash Player.goToHome Player.y].
    rewrite (overlaps_pixels res e p (Player.crash p)) by reflexivity.
    destruct (js_eq Z.eqb (Enemy.y e) (Player.y p) && Enemy.overlaps res e p); reflexivity. }
  split; [reflexivity|]. split; [split; reflexivity|]. split.
  { unfold Player.handleInput.
    repeat match goal with
           | |- context [if ?c then _ else _] => destruct c
           end; split; reflexivity. }
  rewrite checkCollisions_eq. cbn [player with_player].
  split; [reflexivity|]. apply iter_crash_pixels.
Qed.

(** C1: a tick of a reachable game in which two enemies overlap the player
    in its row.  The player had no collision before [checkCollisions] ran
    and has two after it: the callback given to [some] returns nothing, so
    the loop does not stop at the first collision. *)
Theorem clump_counts_two_collisions :
  run clump_tick world0 = option_map (main 1500) (option_map (with_frames []) (run walk_up world0))
  /\ List.length (hits (resources clump_world) (player clump_world) (allEnemies clump_world))
     = 2%nat
  /\ Player.collisionCount (player clump_world) = num 0
  /\ Player.collisionCount (player (checkCollisions clump_world)) = num 2
  /\ option_map (fun w => Player.collisionCount (player w)) (run clump_tick world0)
     = Some (num 2).
Proof.
  split; [vm_compute; reflexivity|]. split; [vm_compute; reflexivity|].
  split; [vm_compute; reflexivity|]. split; vm_compute; reflexivity.
Qed.

(** ** Movement *)

Ltac clamp_cases :=
  repeat (match goal with
          | |- context [Z.gtb ?a ?b] => destruct (Z.gtb_spec a b)
          | |- context [Z.ltb ?a ?b] => destruct (Z.ltb_spec a b)
          | |- context [Z.max ?a ?b] => destruct (Z.max_spec a b) as [[? ->]|[? ->]]
          | |- context [Z.min ?a ?b] => destruct (Z.min_spec a b) as [[? ->]|[? ->]]
          end;
          cbn -[Z.add Z.sub Z.gtb Z.ltb Z.max Z.min]).

(** [handleInput] treats the column and the row independently. *)
Lemma handleInput_eq (v : value) (p : Player.t) :
  Player.handleInput v p
  = Player.mk (col_after v (Player.col p)) (row_after v (Player.row p))
              (Player.x p) (Player.y p) (Player.collisionCount p) (Player.sprite p).
Proof.
  destruct p as [pc pr px py pn ps].
  unfold Player.handleInput, col_after, row_after.
  destruct (eq_literal v "left"), (eq_literal v "up"), (eq_literal v "right"),
    (eq_literal v "down");
    cbn [Player.col Player.row Player.x Player.y Player.collisionCount Player.sprite
         Player.set_col Player.set_row];
    repeat (match goal with
            | |- context [js_rel ?f ?a ?b] =>
                lazymatch a with
                | context [if _ then _ else _] => fail
                | _ => destruct (js_rel f a b)
                end
            end;
            cbn [Player.col Player.row Player.x Player.y Player.collisionCount
                 Player.sprite Player.set_col Player.set_row]);
    reflexivity.
Qed.

Lemma col_after_placed (v : value) (c : Z) :
  0 <= c <= gsBoardColumns - 1 ->
  let c1 := if eq_literal v "left" then c - 1 else c in
  let c2 := if eq_literal v "right" then c1 + 1 else c1 in
  col_after v (num c) = num (Z.max 0 (Z.min (gsBoardColumns - 1) c2)).
Proof.
  intros Hc. unfold col_after, gsBoardColumns in *.
  destruct (eq_literal v "left"), (eq_literal v "right");
    cbn -[Z.add Z.sub Z.gtb Z.ltb Z.max Z.min];
    clamp_cases; try lia; f_equal; lia.
Qed.

Lemma row_after_placed (v : value) (r : Z) :
  0 <= r <= 5 ->
  let r1 := if eq_literal v "up" then r - 1 else r in
  let r2 := if eq_literal v "down" then r1 + 1 else r1 in
  row_after v (num r) = num (Z.max 0 (Z.min 5 r2)).
Proof.
  intros Hr. unfold row_after.
  destruct (eq_literal v "up"), (eq_literal v "down");
    cbn -[Z.add Z.sub Z.gtb Z.ltb Z.max Z.min];
    clamp_cases; try lia; f_equal; lia.
Qed.

(** [handleInput] on a cell of the board. *)
Lemma handleInput_placed_eq (v : value) (p : Player.t) (c r : Z) :
  Player.col p = num c -> Player.row p = num r ->
  0 <= c <= gsBoardColumns - 1 -> 0 <= r <= 5 ->
  let c1 := if eq_literal v "left" then c - 1 else c in
  let r1 := if eq_literal v "up" then r - 1 else r in
  let c2 := if eq_literal v "right" then c1 + 1 else c1 in
  let r2 := if eq_literal v "down" then r1 + 1 else r1 in
  Player.handleInput v p
  = Player.mk (num (Z.max 0 (Z.min (gsBoardColumns - 1) c2))) (num (Z.max 0 (Z.min 5 r2)))
              (Player.x p) (Player.y p) (Player.collisionCount p) (Player.sprite p).
Proof.
  intros Ec Er Hc Hr. cbv zeta. rewrite handleInput_eq, Ec, Er.
  now rewrite (col_after_placed v c Hc), (row_after_placed v r Hr).
Qed.

Lemma col_after_within (v : value) (c : js Z) : within 0 (gsBoardColumns - 1) (col_after v c).
Proof.
  unfold col_after, within, gsBoardColumns.
  destruct c as [| |c], (eq_literal v "left"), (eq_literal v "right");
    cbn -[Z.add Z.sub Z.gtb Z.ltb]; try exact I; clamp_cases; lia.
Qed.

Lemma row_after_within (v : value) (r : js Z) : within 0 5 (row_after v r).
Proof.
  unfold row_after, within.
  destruct r as [| |r], (eq_literal v "up"), (eq_literal v "down");
    cbn -[Z.add Z.sub Z.gtb Z.ltb]; try exact I; clamp_cases; lia.
Qed.

Lemma handleInput_on_board (v : value) (p : Player.t) :
  on_board (Player.handleInput v p).
Proof.
  rewrite handleInput_eq. split; [apply col_after_within | apply row_after_within].
Qed.

(** An input that is equal ([==]) to none of the movement commands leaves a
    player on the board (or not yet placed) as it is. *)
Lemma handleInput_other (v : value) (p : Player.t) :
  on_board p ->
  (forall d, In d directions -> eq_literal v d = false) ->
  Player.handleInput v p = p.
Proof.
  intros [Hc Hr] E.
  rewrite handleInput_eq. unfold col_after, row_after.
  rewrite (E "left"), (E "up"), (E "right"), (E "down") by (cbn; tauto).
  destruct p as [[| |c] [| |r] px py pn ps];
    unfold within, gsBoardColumns in *; cbn [Player.col Player.row] in *;
    cbn -[Z.gtb Z.ltb]; clamp_cases; try lia; reflexivity.
Qed.

Lemma placed_on_board (p : Player.t) : placed p -> on_board p.
Proof. intros (c & r & Ec & Er & Hc & Hr). unfold on_board. now rewrite Ec, Er. Qed.

Lemma handleInput_placed (v : value) (p : Player.t) :
  placed p -> placed (Player.handleInput v p).
Proof.
  intros (c & r & Ec & Er & Hc & Hr).
  rewrite (handleInput_placed_eq v p c r Ec Er Hc Hr).
  eexists _, _. cbn [Player.col Player.row]. split; [reflexivity|]. split; [reflexivity|].
  unfold gsBoardColumns in *. split; lia.
Qed.

Lemma moves_placed (keys : list value) (p : Player.t) :
  placed p -> placed (fold_left (fun q k => Player.handleInput k q) keys p).
Proof.
  revert p. induction keys as [|k keys IH]; intros p Hp; [exact Hp|].
  cbn [fold_left]. apply IH. now apply handleInput_placed.
Qed.

Lemma goToHome_placed (p : Player.t) : placed (Player.goToHome p).
Proof. exists 2, 5. unfold gsBoardColumns. cbn. repeat split; lia. Qed.

(** C4: starting from the home cell, after any sequence of inputs to
    [handleInput] (the four movement commands or anything else) the player's
    column is in [0, gsBoardColumns - 1] = [0, 4] and its row in [0, 5];
    at a boundary the command that would cross it leaves the player exactly
    as it is.  [handleInput] is a total function: no command fails. *)
Theorem moves_stay_on_board (p : Player.t) (keys : list value) :
  let q := fold_left (fun q k => Player.handleInput k q) keys (Player.goToHome p) in
  (exists c r, Player.col q = num c /\ Player.row q = num r
               /\ 0 <= c <= gsBoardColumns - 1 /\ 0 <= c <= 4 /\ 0 <= r <= 5)
  /\ (Player.col q = num 0 -> Player.handleInput (v_string "left") q = q)
  /\ (Player.col q = num (gsBoardColumns - 1) -> Player.handleInput (v_string "right") q = q)
  /\ (Player.row q = num 0 -> Player.handleInput (v_string "up") q = q)
  /\ (Player.row q = num 5 -> Player.handleInput (v_string "down") q = q).
Proof.
  intros q.
  destruct (moves_placed keys (Player.goToHome p) (goToHome_placed p))
    as (c & r & Ec & Er & Hc & Hr).
  fold q in Ec, Er. split.
  { exists c, r. unfold gsBoardColumns in *. repeat split; auto; lia. }
  repeat split; intros E;
    rewrite (handleInput_placed_eq _ q c r Ec Er Hc Hr);
    rewrite E in *; (injection Ec as <- || injection Er as <-);
    destruct q as [qc qr qx qy qn qs]; cbn [Player.col Player.row] in *; subst;
    unfold gsBoardColumns in *; cbn -[Z.max Z.min];
    repeat f_equal; lia.
Qed.

(** ** Enemies *)

Lemma draws_ok : random_ok draws.
Proof.
  intros k. unfold draws.
  destruct k as [|[|[|[|k]]]]; split; unfold Qle, Qlt; cbn; lia.
Qed.

(** ** The entities during a tick *)

Lemma spawn_draw (this : Enemy.t) (g : Random) : draw (snd (Enemy.spawn this g)) = draw g.
Proof. reflexivity. Qed.

Lemma update_draw (res : Resources) (dt : js Q) (this : Enemy.t) (g : Random) :
  draw (snd (Enemy.update res dt this g)) = draw g.
Proof.
  unfold Enemy.update.
  match goal with |- context [if ?c then _ else _] => destruct c end; reflexivity.
Qed.

Lemma update_hazard_row (res : Resources) (dt : js Q) (this : Enemy.t) (g : Random) :
  random_ok (draw g) -> in_hazard_row this ->
  in_hazard_row (fst (Enemy.update res dt this g)).
Proof.
  intros Hg Hr. unfold Enemy.update.
  match goal with |- context [if ?c then _ else _] => destruct c end.
  - match goal with |- context [Enemy.spawn ?e g] =>
      destruct (spawn_spec e g Hg) as (s & k & _ & Hk & ->) end.
    exists k. split; [exact Hk|reflexivity].
  - exact Hr.
Qed.

Lemma forEach_spawn (es : list Enemy.t) (g : Random) :
  random_ok (draw g) ->
  Forall in_hazard_row (fst (Array_forEach Enemy.spawn es g))
  /\ draw (snd (Array_forEach Enemy.spawn es g)) = draw g.
Proof.
  revert g. induction es as [|e es IH]; intros g Hg; [split; [constructor|reflexivity]|].
  cbn [Array_forEach].
  destruct (spawn_spec e g Hg) as (s & k & _ & Hk & E). rewrite E.
  specialize (IH (mkRandom (draw g) (S (S (calls g)))) Hg).
  destruct (Array_forEach Enemy.spawn es _) as [es' g']. cbn [fst snd] in *.
  destruct IH as [IH1 IH2]. split; [|exact IH2].
  constructor; [|exact IH1]. exists k. split; [exact Hk|reflexivity].
Qed.

Lemma forEach_update (res : Resources) (dt : js Q) (es : list Enemy.t) (g : Random) :
  draw (snd (Array_forEach (Enemy.update res dt) es g)) = draw g
  /\ (random_ok (draw g) -> Forall in_hazard_row es ->
      Forall in_hazard_row (fst (Array_forEach (Enemy.update res dt) es g))).
Proof.
  revert g. induction es as [|e es IH]; intros g; [split; [reflexivity|now constructor]|].
  cbn [Array_forEach].
  pose proof (update_draw res dt e g) as D.
  pose proof (update_hazard_row res dt e g) as R.
  destruct (Enemy.update res dt e g) as [e' g1]. cbn [fst snd] in *.
  specialize (IH g1). destruct (Array_forEach (Enemy.update res dt) es g1) as [es' g2].
  cbn [fst snd] in *. destruct IH as [IH1 IH2]. split; [congruence|].
  intros Hg Hes. inversion Hes; subst. constructor; [now apply R|].
  apply IH2; [now rewrite D | assumption].
Qed.

Lemma hits_other_row (res : Resources) (p : Player.t) (es : list Enemy.t) :
  Player.y p = num (5 * VISIBLE_ROW_HEIGHT - ROW_HEIGHT_OFFSET) ->
  Forall in_hazard_row es -> hits res p es = [].
Proof.
  intros Ey. induction 1 as [|e es (k & Hk & Ek) _ IH]; [reflexivity|].
  cbn [hits filter]. fold (hits res p es). rewrite Ek, Ey. cbn [js_eq].
  unfold VISIBLE_ROW_HEIGHT, ROW_HEIGHT_OFFSET.
  destruct (Z.eqb_spec (k * 83 - 25) (5 * 83 - 25)); [lia|]. exact IH.
Qed.

Lemma iter_crash_on_board (n : nat) (p : Player.t) :
  on_board p -> on_board (Nat.iter n Player.crash p).
Proof.
  intros Hp. destruct n as [|n]; [exact Hp|]. cbn [Nat.iter].
  unfold on_board, within, gsBoardColumns. cbn. lia.
Qed.

(** [update] changes the entities and advances the random source; it makes
    no call to the host. *)
Lemma update_updated (dt : js Q) (w : World) :
  exists es g,
    update dt w
    = updated w (Nat.iter (List.length (hits (resources w)
                                             (Player.update (resources w) (player w)) es))
                          Player.crash (Player.update (resources w) (player w)))
              es g
    /\ (es, g) = Array_forEach (Enemy.update (resources w) dt) (allEnemies w) (random w).
Proof.
  unfold update, updateEntities.
  destruct (Array_forEach (Enemy.update (resources w) dt) (allEnemies w) (random w))
    as [es g] eqn:E.
  exists es, g. split; [|reflexivity]. rewrite checkCollisions_eq. reflexivity.
Qed.

Lemma update_on_board (res : Resources) (p : Player.t) :
  on_board p -> on_board (Player.update res p).
Proof. auto. Qed.

(** ** The tick *)

Lemma main_eq (now : Z) (w : World) :
  main now w
  = scheduled now (checkGameStatus (render (update (elapsed now w) w))).
Proof.
  unfold main. fold (elapsed now w).
  generalize (checkGameStatus (render (update (elapsed now w) w))) as w4. intros w4.
  cbv zeta. unfold scheduled.
  change (requestId (with_lastTime (num now) w4)) with (requestId w4).
  destruct (js_defined (requestId w4)); reflexivity.
Qed.

(** A tick of a game in progress: it ends halted if a terminal condition
    holds after the update, and with exactly one new frame pending if not. *)
Lemma main_invariant (now id : Z) (w : World) :
  on_board (player w) -> 0 < nextFrame w -> random_ok (draw (random w)) ->
  frames w = [] -> requestId w = num id -> id <> 0 -> buttons w = buttons_playing ->
  invariant (main now w).
Proof.
  intros Hp Hn Hg Hf Hr Hid Hb. rewrite main_eq.
  destruct (update_updated (elapsed now w) w) as (es & g & -> & E).
  pose proof (forEach_update (resources w) (elapsed now w) (allEnemies w) (random w)) as [D _].
  rewrite <- E in D. cbn [snd] in D.
  set (p := Nat.iter _ Player.crash (Player.update (resources w) (player w))).
  assert (Hp' : on_board p) by (apply iter_crash_on_board; exact Hp).
  rewrite render_emit.
  set (r := emit _ (updated w p es g)).
  destruct (checkGameStatus_stopped r) as (out & -> & _).
  assert (T : js_truthy (num id) = true).
  { cbn. now destruct (Z.eqb_spec id 0). }
  destruct (lost_condition r || won_condition r).
  - (* the game ends in this tick *)
    unfold scheduled, stopped, stopped_requestId, stopped_frames, r, emit, updated.
    fields. rewrite Hr, T, Hf. cbn [js_defined filter].
    unfold with_lastTime, invariant, loop_ok, halted. fields.
    rewrite D. split; [exact Hp'|]. split; [exact Hn|]. split; [exact Hg|].
    left. split; [reflexivity|]. split; reflexivity.
  - (* the game goes on *)
    unfold scheduled, r, emit, updated. fields. rewrite Hr. cbn [js_defined].
    unfold invariant, loop_ok, looping. fields. rewrite D, Hf.
    split; [exact Hp'|]. split; [lia|]. split; [exact Hg|]. right.
    exists (nextFrame w). split; [reflexivity|]. split; [reflexivity|].
    split; [lia|exact Hb].
Qed.

(** ** Every reachable state satisfies the invariant *)

Lemma stopGame_halts (w : World) :
  invariant w -> invariant (stopGame w) /\ halted (stopGame w).
Proof.
  intros (Hp & Hn & Hg & Hl).
  assert (H : halted (stopGame w)).
  { rewrite stopGame_eq. unfold halted, stopped. fields.
    split; [|split; [apply stopped_requestId_falsy|reflexivity]].
    unfold stopped_frames. destruct Hl as [(Hf & Ht & _)|(id & Hf & Hr & Hid & _)].
    - now rewrite Ht.
    - rewrite Hr, Hf. cbn [js_truthy filter].
      destruct (Z.eqb_spec id 0); [contradiction|]. cbn [negb].
      now rewrite Z.eqb_refl. }
  split; [|exact H]. split; [|split; [|split; [|left; exact H]]];
    rewrite stopGame_eq; assumption.
Qed.

Lemma initGameSettings_eq (w : World) :
  initGameSettings w
  = mkWorld (Player.mk (num 2) (num 5) (Player.x (player w)) (Player.y (player w)) (num 0)
                       (Player.sprite (player w)))
            (fst (Array_forEach Enemy.spawn (allEnemies w) (random w)))
            (num 0) (lastTime w) (buttons w) (frames w) (nextFrame w) (resources w)
            (snd (Array_forEach Enemy.spawn (allEnemies w) (random w))) (trace w).
Proof.
  unfold initGameSettings, with_player, with_requestId, with_enemies. fields.
  destruct (Array_forEach Enemy.spawn (allEnemies w) (random w)); reflexivity.
Qed.

Lemma startGame_eq (t0 t1 : Z) (w : World) :
  startGame t0 t1 w = main t1 (started t0 w).
Proof.
  unfold startGame, init. rewrite initGameSettings_eq.
  unfold setButtonDisabled, with_lastTime, started. fields.
  now rewrite <- !app_assoc.
Qed.

(** The first tick of a game: the player is at home, below the stone rows,
    so no enemy can hit it and no terminal condition holds. *)
Lemma first_tick (now : Z) (w : World) :
  Player.col (player w) = num 2 -> Player.row (player w) = num 5 ->
  Player.collisionCount (player w) = num 0 ->
  Forall in_hazard_row (allEnemies w) -> random_ok (draw (random w)) ->
  requestId w = num 0 -> frames w = [] -> 0 < nextFrame w ->
  buttons w = buttons_playing ->
  invariant (main now w) /\ looping (main now w)
  /\ Player.collisionCount (player (main now w)) = num 0
  /\ Player.col (player (main now w)) = num 2
  /\ Player.row (player (main now w)) = num 5.
Proof.
  intros Ec Er En Hes Hg Hr Hf Hn Hb. rewrite main_eq.
  destruct (update_updated (elapsed now w) w) as (es & g & -> & E).
  pose proof (forEach_update (resources w) (elapsed now w) (allEnemies w) (random w)) as [D R].
  rewrite <- E in D, R. cbn [fst snd] in D, R.
  assert (Hes' : Forall in_hazard_row es) by (apply R; assumption).
  assert (Ey : Player.y (Player.update (resources w) (player w))
               = num (5 * VISIBLE_ROW_HEIGHT - ROW_HEIGHT_OFFSET)).
  { unfold Player.update. cbn [Player.y]. now rewrite Er. }
  rewrite (hits_other_row (resources w) _ es Ey Hes').
  change (Nat.iter (List.length (@nil Enemy.t)) Player.crash ?q) with q.
  rewrite render_emit.
  set (p := Player.update (resources w) (player w)) in *.
  assert (Pc : Player.col p = num 2) by exact Ec.
  assert (Pr : Player.row p = num 5) by exact Er.
  assert (Pn : Player.collisionCount p = num 0) by exact En.
  clearbody p.
  set (r := emit _ (updated w p es g)).
  assert (S : checkGameStatus r = r).
  { destruct (checkGameStatus_stopped r) as (out & -> & _).
    unfold lost_condition, won_condition, r, emit, updated. fields.
    now rewrite Pn, Pr. }
  rewrite S. unfold scheduled, r, emit, updated. fields. rewrite Hr. cbn [js_defined].
  unfold invariant, loop_ok, looping, on_board. fields. rewrite Pc, Pr, Pn, D, Hf.
  assert (L : exists id : Z, [] ++ [nextFrame w] = [id] /\ num (nextFrame w) = num id
                             /\ id <> 0 /\ buttons w = buttons_playing).
  { exists (nextFrame w). split; [reflexivity|]. split; [reflexivity|]. split; [lia|exact Hb]. }
  unfold within, gsBoardColumns.
  split; [|split; [exact L|split; [reflexivity|split; reflexivity]]].
  split; [split; lia|]. split; [lia|]. split; [exact Hg|]. right. exact L.
Qed.

Lemma startGame_loops (t0 t1 : Z) (w : World) :
  0 < nextFrame w -> random_ok (draw (random w)) -> frames w = [] ->
  invariant (startGame t0 t1 w) /\ looping (startGame t0 t1 w)
  /\ Player.collisionCount (player (startGame t0 t1 w)) = num 0
  /\ Player.col (player (startGame t0 t1 w)) = num 2
  /\ Player.row (player (startGame t0 t1 w)) = num 5.
Proof.
  intros Hn Hg Hf. rewrite startGame_eq.
  destruct (forEach_spawn (allEnemies w) (random w) Hg) as [Hes Hd].
  apply first_tick; unfold started; fields; try reflexivity; try assumption.
  now rewrite Hd.
Qed.

Lemma initialWorld_invariant (res : Resources) (rnd : nat -> Q) :
  random_ok rnd -> invariant (initialWorld res rnd).
Proof.
  intros Hr. unfold initialWorld. rewrite readyStart_eq.
  unfold invariant, loop_ok, halted, on_board, boot. fields.
  split; [split; exact I|]. split; [lia|]. split; [exact Hr|].
  left. split; [reflexivity|]. split; reflexivity.
Qed.

Lemma step_invariant (e : Event) (w w' : World) :
  invariant w -> step e w = Some w' -> invariant w'.
Proof.
  intros Hi. pose proof Hi as (Hp & Hn & Hg & Hl). destruct e as [t0 t1|t0 t1| |k|now];
    cbn [step].
  - (* Start *)
    destruct (disabled w buttonStart) eqn:Eb; [discriminate|]. intros [= <-].
    destruct Hl as [(Hf & _)|(id & _ & _ & _ & Hb)].
    + now apply startGame_loops.
    + unfold disabled in Eb. rewrite Hb in Eb. discriminate.
  - (* Reset *)
    destruct (disabled w buttonReset); [discriminate|]. intros [= <-].
    destruct (stopGame_halts w Hi) as [(_ & Hn' & Hg' & _) (Hf & _)].
    unfold resetGame. now apply startGame_loops.
  - (* Stop *)
    destruct (disabled w buttonStop); [discriminate|]. intros [= <-].
    now apply stopGame_halts.
  - (* a key *)
    intros [= <-]. split; [apply handleInput_on_board|]. exact (conj Hn (conj Hg Hl)).
  - (* an animation frame *)
    destruct (frames w) as [|id rest] eqn:Ef; [discriminate|]. intros [= <-].
    destruct Hl as [(Hf & _)|(id' & Hf & Hr & Hid & Hb)]; rewrite Ef in Hf;
      [discriminate|]. injection Hf as -> ->.
    now apply (main_invariant now id' (with_frames [] w)).
Qed.

Theorem reachable_invariant (w : World) : reachable w -> invariant w.
Proof.
  induction 1 as [res rnd Hr|w w' e _ IH Hs].
  - now apply initialWorld_invariant.
  - exact (step_invariant e w w' IH Hs).
Qed.

Lemma run_reachable (es : list Event) (w w' : World) :
  reachable w -> run es w = Some w' -> reachable w'.
Proof.
  revert w. induction es as [|e es IH]; intros w Hw; cbn [run].
  - now intros [= <-].
  - destruct (step e w) as [w1|] eqn:E; [|discriminate].
    apply IH. exact (reachable_step w w1 e Hw E).
Qed.

(** ** Stopping *)

Lemma filter_scheduling_nil (l : list Effect) :
  forallb (fun e => negb (scheduling e)) l = true -> filter scheduling l = [].
Proof.
  induction l as [|e l IH]; [reflexivity|]. cbn [forallb filter]. intros H.
  apply andb_true_iff in H. destruct H as [He Hl].
  destruct (scheduling e); [discriminate|]. now apply IH.
Qed.

Lemma readyStart_out_scheduling (w : World) : filter scheduling (readyStart_out w) = [].
Proof.
  unfold readyStart_out. rewrite filter_app.
  now rewrite (filter_scheduling_nil _ (board_out_not_scheduling w)).
Qed.

Lemma stopGame_out_scheduling (w : World) :
  filter scheduling (stopGame_out w)
  = if js_truthy (requestId w) then [cancelAnimationFrame (requestId w)] else [].
Proof.
  unfold stopGame_out. destruct (js_truthy (requestId w)).
  - cbn [filter scheduling]. now rewrite readyStart_out_scheduling.
  - apply readyStart_out_scheduling.
Qed.

Lemma output_stopped (f : World -> World) (w : World) (out : list Effect) :
  f w = stopped w out -> output f w = out.
Proof. intros E. unfold output. rewrite E. unfold stopped. fields. apply skipn_length_app. Qed.

(** C7: [stopGame] is idempotent.  In every reachable state, a second stop
    leaves the player, the enemies, the collision counter, [requestId], the
    pending frames, the buttons and every other part of the state exactly as
    the first stop left them; it only redraws the board and sets the buttons
    again, cancelling and scheduling nothing.  After a stop no frame is
    pending, the game is not in progress, and no tick can run. *)
Theorem stop_is_idempotent (w : World) (now : Z) :
  reachable w ->
  forget_trace (stopGame (stopGame w)) = forget_trace (stopGame w)
  /\ filter scheduling (output stopGame (stopGame w)) = []
  /\ frames (stopGame w) = []
  /\ inProgress (stopGame w) = false
  /\ buttons (stopGame w) = buttons_idle
  /\ step (AnimationFrame now) (stopGame w) = None
  /\ player (stopGame w) = player w
  /\ allEnemies (stopGame w) = allEnemies w.
Proof.
  intros Hw. apply reachable_invariant in Hw.
  destruct (stopGame_halts w Hw) as [_ (Hf & Ht & Hb)].
  split; [|split; [|split; [exact Hf|split; [exact Ht|split; [exact Hb|split; [|split]]]]]].
  - rewrite (stopGame_eq (stopGame w)), (stopGame_eq w), stopped_stopped. reflexivity.
  - rewrite (output_stopped stopGame (stopGame w) _ (stopGame_eq _)).
    rewrite stopGame_out_scheduling. now rewrite Ht.
  - cbn [step]. now rewrite Hf.
  - now rewrite stopGame_eq.
  - now rewrite stopGame_eq.
Qed.


(** ** The status check *)

Lemma gameOver_trace (outcome : string) (w : World) :
  trace (gameOver outcome w) = trace w ++ output (gameOver outcome) w.
Proof.
  destruct (gameOver_stopped outcome w) as (out & E & _).
  rewrite (output_stopped _ _ _ E), E. reflexivity.
Qed.

Lemma gameOver_player (outcome : string) (w : World) :
  player (gameOver outcome w) = player w.
Proof. destruct (gameOver_stopped outcome w) as (out & -> & _). reflexivity. Qed.

Lemma checkGameStatus_trace (w : World) :
  trace (checkGameStatus w) = trace w ++ status_out w.
Proof.
  unfold checkGameStatus, status_out. fold (lost_condition w).
  destruct (lost_condition w).
  - rewrite gameOver_player. fold (won_condition w). destruct (won_condition w).
    + now rewrite !gameOver_trace, app_assoc.
    + now rewrite gameOver_trace, app_nil_r.
  - fold (won_condition w). destruct (won_condition w).
    + now rewrite gameOver_trace.
    + now rewrite app_nil_r.
Qed.

Lemma output_checkGameStatus (w : World) : output checkGameStatus w = status_out w.
Proof. unfold output. rewrite checkGameStatus_trace. apply skipn_length_app. Qed.

(** C8 (as amended): when the collision counter has reached the limit and
    the player is on row 0 at the same status check, [checkGameStatus] calls
    [gameOver] for both outcomes, lost first and won second.  The game is
    stopped (the pending frame is cancelled once; the second stop cancels
    nothing) and both banners are drawn on the same rectangle, the won
    banner last: losing does not suppress the evaluation of winning. *)
Theorem both_outcomes_are_reported (w : World) :
  lost_condition w = true -> won_condition w = true ->
  checkGameStatus w = gameOver "won" (gameOver "lost" w)
  /\ banners (output checkGameStatus w) = ["Game over - you lose"; "Woo hoo! You won!"]
  /\ filter scheduling (output checkGameStatus w)
     = (if inProgress w then [cancelAnimationFrame (requestId w)] else [])
  /\ inProgress (checkGameStatus w) = false.
Proof.
  intros L V.
  assert (E : checkGameStatus w = gameOver "won" (gameOver "lost" w)).
  { unfold checkGameStatus. fold (lost_condition w). rewrite L, gameOver_player.
    fold (won_condition w). now rewrite V. }
  split; [exact E|].
  destruct (gameOver_stopped "lost" w) as (o1 & E1 & B1 & S1).
  destruct (gameOver_stopped "won" (stopped w o1)) as (o2 & E2 & B2 & S2).
  rewrite E1, E2, stopped_stopped in E.
  rewrite (output_stopped _ _ _ E), E.
  rewrite banners_app, B1, B2, filter_app, S1, S2, !stopGame_out_scheduling.
  unfold stopped at 1 2. fields. rewrite stopped_requestId_falsy, app_nil_r.
  repeat split. unfold inProgress, stopped. fields. apply stopped_requestId_falsy.
Qed.

(** ** The order of the phases of a tick *)

(** C6 (as amended): a tick runs its phases in this order: the elapsed time
    is computed; every enemy is updated with it; the player's pixel position
    is updated; collisions are detected; the scene is rendered; the win and
    loss conditions are evaluated; [lastTime] is set; and another frame is
    requested unless [requestId] is undefined.  Nothing is sent to the host
    before the rendering, and what the status check sends (cancellation,
    board, buttons, banner) comes after what the rendering has drawn. *)
Theorem main_phase_order (now : Z) (w : World) :
  let dt := elapsed now w in
  let moved_enemies :=
    Array_forEach (Enemy.update (resources w) dt) (allEnemies w) (random w) in
  let w1 := with_enemies (fst moved_enemies) (snd moved_enemies) w in
  let w2 := with_player (Player.update (resources w1) (player w1)) w1 in
  let w3 := checkCollisions w2 in
  let w4 := render w3 in
  let w5 := checkGameStatus w4 in
  main now w = scheduled now w5
  /\ trace w3 = trace w
  /\ trace w4 = trace w ++ board_out w3 ++ entities_out w3
  /\ trace w5 = trace w ++ (board_out w3 ++ entities_out w3) ++ status_out w4
  /\ trace (main now w)
     = trace w ++ (board_out w3 ++ entities_out w3) ++ status_out w4
               ++ (if js_defined (requestId w5)
                   then [requestAnimationFrame (nextFrame w5)] else [])
  /\ lastTime (main now w) = num now.
Proof.
  intros dt moved_enemies w1 w2 w3 w4 w5.
  assert (E : update dt w = w3).
  { unfold update, updateEntities, w3, w2, w1, moved_enemies.
    now destruct (Array_forEach (Enemy.update (resources w) dt) (allEnemies w) (random w)). }
  assert (E0 : main now w = scheduled now w5).
  { rewrite main_eq. fold dt. now rewrite E. }
  assert (T3 : trace w3 = trace w).
  { unfold w3. rewrite checkCollisions_eq. reflexivity. }
  assert (T4 : trace w4 = trace w ++ board_out w3 ++ entities_out w3).
  { unfold w4. rewrite render_emit. unfold emit. fields. now rewrite T3. }
  assert (T5 : trace w5 = trace w ++ (board_out w3 ++ entities_out w3) ++ status_out w4).
  { unfold w5. rewrite checkGameStatus_trace, T4. now rewrite <- app_assoc. }
  split; [exact E0|]. split; [exact T3|]. split; [exact T4|]. split; [exact T5|].
  rewrite E0. unfold scheduled. destruct (js_defined (requestId w5)).
  - fields. rewrite T5. split; [|reflexivity]. now rewrite <- !app_assoc.
  - unfold with_lastTime. fields. rewrite T5, app_nil_r. split; reflexivity.
Qed.

(** ** The scenarios *)

Lemma world0_reachable : reachable world0.
Proof. apply reachable_initial. exact draws_ok. Qed.

Lemma running_world_reachable : reachable running_world.
Proof.
  apply (reachable_step world0 running_world (ClickStart 0 0) world0_reachable).
  vm_compute. reflexivity.
Qed.

(** C2: a reachable state in which the score has been drawn with a negative
    number of lives.  Two enemies hit the player in one tick (two lives
    lost, "Lives remaining: 1"), and again in a later tick: the counter goes
    from 2 to 4 before the status check runs, and the frame rendered in
    between shows "Lives remaining: -1". *)
Theorem negative_lives_are_displayed :
  run second_clump_tick world0 = Some overdrawn_world
  /\ reachable overdrawn_world
  /\ Player.collisionCount (player overdrawn_world) = num 4
  /\ scores (trace overdrawn_world) = ["Lives remaining: 1"; "Lives remaining: -1"].
Proof.
  assert (R : run second_clump_tick world0 = Some overdrawn_world)
    by (vm_compute; reflexivity).
  split; [exact R|]. split; [exact (run_reachable _ _ _ world0_reachable R)|].
  split; vm_compute; reflexivity.
Qed.


(** C6, counterexample: the tick in which the player has reached the water.
    [main] renders first (its output begins with the board and includes the
    score) and only then evaluates the status; a tick that evaluated the
    status before rendering would begin by cancelling the frame, would not
    draw the score, and would end by drawing the player over the banner. *)
Lemma status_check_follows_render :
  option_map (with_frames [])
    (run [ClickStart 0 0; KeyUp 38; KeyUp 38; KeyUp 38; KeyUp 38; KeyUp 38] world0)
  = Some winning_world
  /\ main 2000 winning_world <> tick_status_before_render 2000 winning_world
  /\ hd_error (output (main 2000) winning_world)
     = Some (drawImage "images/water-block.png" (num 0%Q) (num 0%Q))
  /\ hd_error (output (tick_status_before_render 2000) winning_world)
     = Some (cancelAnimationFrame (num 1))
  /\ scores (output (main 2000) winning_world) = ["Lives remaining: 3"]
  /\ scores (output (tick_status_before_render 2000) winning_world) = [].
Proof.
  split; [vm_compute; reflexivity|]. split.
  { intros H.
    assert (H' : hd_error (output (main 2000) winning_world)
                 = hd_error (output (tick_status_before_render 2000) winning_world))
      by (unfold output; now rewrite H).
    vm_compute in H'. discriminate. }
  split; [vm_compute; reflexivity|]. split; [vm_compute; reflexivity|].
  split; vm_compute; reflexivity.
Qed.

(** C8, counterexample: with three collisions and the player on row 0, the
    status check draws the lost banner and then the won banner over it; the
    outcome is not reported as lost only. *)
Lemma both_conditions_show_won_banner :
  lost_condition both_conditions_world = true
  /\ won_condition both_conditions_world = true
  /\ banners (output checkGameStatus both_conditions_world)
     = ["Game over - you lose"; "Woo hoo! You won!"]
  /\ banners (output checkGameStatus both_conditions_world) <> ["Game over - you lose"].
Proof.
  split; [vm_compute; reflexivity|]. split; [vm_compute; reflexivity|].
  split; [vm_compute; reflexivity|]. vm_compute. discriminate.
Qed.

(** ** Instances of the theorems *)

Lemma moves_stay_on_board_witness :
  let q := fold_left (fun q k => Player.handleInput k q)
                     [v_string "left"; v_string "left"; v_string "left"]
                     (Player.goToHome Player.new) in
  Player.col q = num 0 /\ Player.handleInput (v_string "left") q = q.
Proof.
  intros q. split; [vm_compute; reflexivity|].
  apply (proj1 (proj2 (moves_stay_on_board Player.new
                         [v_string "left"; v_string "left"; v_string "left"]))).
  vm_compute. reflexivity.
Defined.

Lemma stop_is_idempotent_witness :
  reachable running_world
  /\ forget_trace (stopGame (stopGame running_world)) = forget_trace (stopGame running_world)
  /\ frames (stopGame running_world) = [].
Proof.
  pose proof (stop_is_idempotent running_world 0 running_world_reachable) as H.
  split; [exact running_world_reachable|].
  split; [exact (proj1 H)|exact (proj1 (proj2 (proj2 H)))].
Defined.

Lemma both_outcomes_are_reported_witness :
  banners (output checkGameStatus both_conditions_world)
  = ["Game over - you lose"; "Woo hoo! You won!"].
Proof.
  refine (proj1 (proj2 (both_outcomes_are_reported both_conditions_world _ _))).
  - vm_compute. reflexivity.
  - vm_compute. reflexivity.
Defined.


(** * Further properties of the entities and of the engine *)

(** ** Enemy.collided *)

(** X1: an enemy whose y differs from the player's never collides, wherever
    it is on the track: [collided] answers false and leaves the player (its
    cell and its collision counter) untouched.  In particular an enemy of
    stone row k and a player updated on row r share their y only if k = r. *)
Theorem other_row_never_collides (res : Resources) (e : Enemy.t) (p : Player.t)
        (ey py : Z) :
  Enemy.y e = num ey -> Player.y p = num py -> ey <> py ->
  Enemy.collided res e p = (false, p)
  /\ (forall k r, row_y k = row_y r -> k = r).
Proof.
  intros Ee Ep Hne. split.
  - unfold Enemy.collided. rewrite Ee, Ep. cbn [js_eq].
    destruct (Z.eqb_spec ey py); [contradiction|reflexivity].
  - intros k r. unfold row_y, VISIBLE_ROW_HEIGHT, ROW_HEIGHT_OFFSET. lia.
Qed.

Lemma other_row_never_collides_witness :
  Enemy.collided images101 (Enemy.mk (num 202%Q) (num 58) (num 100) "images/enemy-bug.png")
                 (Player.mk (num 2) (num 3) (num 202) (num 224) (num 0) "images/char-boy.png")
  = (false, Player.mk (num 2) (num 3) (num 202) (num 224) (num 0) "images/char-boy.png").
Proof.
  refine (proj1 (other_row_never_collides images101 _ _ 58 224 _ _ _)).
  - reflexivity.
  - reflexivity.
  - lia.
Defined.


(** X2: sprites that touch collide.  For an enemy and a player in the same
    row, whenever the two visible intervals meet, bounds included (enemy
    right edge x + w at or past the player's left edge px + 23, and player
    right edge px + w at or past the enemy's left edge x), [collided] reports
    a collision: the player is sent home with one more collision and the same
    pixel position.  An enemy whose left edge is past the player's right
    edge, or whose right edge is a pixel or more short of the player's left
    edge, does not collide and leaves the player unchanged. *)
Theorem touching_sprites_collide (res : Resources) (e : Enemy.t) (p : Player.t)
        (ex : Q) (px y : Z) :
  Enemy.x e = num ex -> Player.x p = num px ->
  Enemy.y e = num y -> Player.y p = num y ->
  let w := res (Enemy.sprite e) in
  (edges_meet w px ex ->
   Enemy.collided res e p
   = (true, Player.mk (num 2) (num 5) (num px) (num y) (js_inc (Player.collisionCount p))
                      (Player.sprite p)))
  /\ ((inject_Z (px + w) < ex)%Q -> Enemy.collided res e p = (false, p))
  /\ ((ex + inject_Z w <= inject_Z (px + PLAYER_WIDTH_OFFSET - 1))%Q ->
      Enemy.collided res e p = (false, p)).
Proof.
  intros Ex Px Ey Py w.
  assert (O : Enemy.overlaps res e p = true <-> edges_meet w px ex).
  { unfold Enemy.overlaps, edges_meet, w. rewrite Ex, Px. cbn [js_lift1 js_rel].
    rewrite andb_true_iff, !Qle_bool_iff. reflexivity. }
  assert (N : ~ edges_meet w px ex -> Enemy.collided res e p = (false, p)).
  { intros H. rewrite collided_eq, Ey, Py. cbn [js_eq]. rewrite Z.eqb_refl. cbn [andb].
    destruct (Enemy.overlaps res e p) eqn:B; [|reflexivity]. exfalso. apply H. now apply O. }
  split; [|split].
  - intros H. rewrite collided_eq, Ey, Py. cbn [js_eq]. rewrite Z.eqb_refl. cbn [andb].
    rewrite (proj2 O H), crash_eq, Px, Py. reflexivity.
  - intros H. apply N. intros [_ M]. apply (Qlt_not_le _ _ H).
    eapply Qle_trans; [exact M|]. rewrite <- Zle_Qle. unfold PLAYER_WIDTH_OFFSET. lia.
  - intros H. apply N. intros [M _].
    assert (L : (inject_Z (px + PLAYER_WIDTH_OFFSET) <= inject_Z (px + PLAYER_WIDTH_OFFSET - 1))%Q)
      by (eapply Qle_trans; [exact M|exact H]).
    rewrite <- Zle_Qle in L. lia.
Qed.

Lemma touching_sprites_collide_witness :
  edges_meet 101 202 (303 # 1)
  /\ fst (Enemy.collided images101
            (Enemy.mk (num (303 # 1)) (num 224) (num 100) "images/enemy-bug.png")
            (Player.mk (num 2) (num 3) (num 202) (num 224) (num 0) "images/char-boy.png"))
     = true.
Proof.
  assert (M : edges_meet 101 202 (303 # 1)).
  { unfold edges_meet, PLAYER_WIDTH_OFFSET, Qle. simpl. lia. }
  split; [exact M|].
  rewrite (proj1 (touching_sprites_collide images101
                    (Enemy.mk (num (303 # 1)) (num 224) (num 100) "images/enemy-bug.png")
                    (Player.mk (num 2) (num 3) (num 202) (num 224) (num 0)
                               "images/char-boy.png")
                    (303 # 1) 202 224 eq_refl eq_refl eq_refl eq_refl) M).
  reflexivity.
Defined.

(** ** Enemy.spawn and initGameSettings *)

Lemma spawn_spawned (this : Enemy.t) (g : Random) :
  random_ok (draw g) ->
  spawned (fst (Enemy.spawn this g))
  /\ Enemy.sprite (fst (Enemy.spawn this g)) = Enemy.sprite this
  /\ snd (Enemy.spawn this g) = mkRandom (draw g) (S (S (calls g))).
Proof.
  intros Hg. destruct (spawn_spec this g Hg) as (s & k & Hs & Hk & ->). cbn [fst snd].
  split; [|split; reflexivity]. split; [reflexivity|]. split.
  - exists k. split; [exact Hk|reflexivity].
  - exists (s + gsEnemySpeedAdjustor). unfold gsEnemySpeedAdjustor.
    split; [lia|reflexivity].
Qed.

Lemma forEach_spawn_spawned (es : list Enemy.t) (g : Random) :
  random_ok (draw g) ->
  Forall spawned (fst (Array_forEach Enemy.spawn es g))
  /\ List.length (fst (Array_forEach Enemy.spawn es g)) = List.length es
  /\ snd (Array_forEach Enemy.spawn es g)
     = mkRandom (draw g) (calls g + 2 * List.length es).
Proof.
  revert g. induction es as [|e es IH]; intros g Hg.
  - cbn. split; [constructor|]. split; [reflexivity|]. destruct g as [d n]. cbn.
    now rewrite Nat.add_0_r.
  - cbn [Array_forEach].
    destruct (spawn_spawned e g Hg) as (Hs & _ & Hr).
    destruct (Enemy.spawn e g) as [e' g1]. cbn [fst snd] in *. subst g1.
    specialize (IH (mkRandom (draw g) (S (S (calls g)))) Hg).
    destruct (Array_forEach Enemy.spawn es _) as [es' g2]. cbn [fst snd draw calls] in *.
    destruct IH as (IH1 & IH2 & IH3). split; [now constructor|]. split.
    + cbn [List.length]. now rewrite IH2.
    + rewrite IH3. f_equal. cbn [List.length]. lia.
Qed.

(** X3: [initGameSettings] prepares a new game whatever the state it is given
    (provided [Math.random] stays in [0, 1)): the collision counter is 0, the
    player is on the home cell (column 2, row 5), [requestId] is 0, and every
    enemy is respawned: at position 0, in one of the three stone rows, with
    an integer speed between 100 and 399.  The number of enemies does not
    change, two random numbers are drawn per enemy, and nothing is sent to
    the host. *)
Theorem initGameSettings_resets (w : World) :
  random_ok (draw (random w)) ->
  let w' := initGameSettings w in
  player w' = Player.mk (num 2) (num 5) (Player.x (player w)) (Player.y (player w))
                        (num 0) (Player.sprite (player w))
  /\ requestId w' = num 0
  /\ Forall spawned (allEnemies w')
  /\ List.length (allEnemies w') = List.length (allEnemies w)
  /\ random w' = mkRandom (draw (random w))
                          (calls (random w) + 2 * List.length (allEnemies w))
  /\ trace w' = trace w /\ frames w' = frames w /\ buttons w' = buttons w
  /\ lastTime w' = lastTime w.
Proof.
  intros Hg w'. unfold w'. rewrite initGameSettings_eq. fields.
  destruct (forEach_spawn_spawned (allEnemies w) (random w) Hg) as (H1 & H2 & H3).
  split; [reflexivity|]. split; [reflexivity|]. split; [exact H1|]. split; [exact H2|].
  split; [exact H3|]. repeat split.
Qed.

Lemma initGameSettings_resets_witness :
  random_ok (draw (random stopped_world))
  /\ Forall spawned (allEnemies (initGameSettings stopped_world))
  /\ requestId (initGameSettings stopped_world) = num 0.
Proof.
  assert (H : random_ok (draw (random stopped_world))) by exact draws_ok.
  pose proof (initGameSettings_resets stopped_world H) as T. cbv zeta in T.
  split; [exact H|]. split; [exact (proj1 (proj2 (proj2 T)))|exact (proj1 (proj2 T))].
Defined.

(** ** Enemy.update *)

(** X4: after [Enemy.update] an enemy is never beyond the end of the track:
    its position is at most sprite width times [gsBoardColumns] (an enemy
    that would pass it restarts at 0), and it is not negative when the
    position, the speed and the elapsed time were not. *)
Theorem update_stays_on_track (res : Resources) (this : Enemy.t) (g : Random)
        (x0 d : Q) (s : Z) :
  Enemy.x this = num x0 -> Enemy.speed this = num s ->
  0 <= res (Enemy.sprite this) ->
  exists x1,
    Enemy.x (fst (Enemy.update res (num d) this g)) = num x1
    /\ (x1 <= inject_Z (res (Enemy.sprite this) * gsBoardColumns))%Q
    /\ ((0 <= x0)%Q -> 0 <= s -> (0 <= d)%Q -> (0 <= x1)%Q).
Proof.
  intros Ex Es Hw. unfold Enemy.update. rewrite Ex, Es.
  cbn [js_lift2 js_rel Enemy.x Enemy.sprite]. unfold Qgtb.
  set (track := inject_Z (res (Enemy.sprite this) * gsBoardColumns)).
  set (x1 := (x0 + inject_Z s * d)%Q).
  destruct (Qle_bool x1 track) eqn:B; cbn [negb].
  - exists x1. cbn [fst Enemy.x]. split; [reflexivity|]. split.
    + now apply Qle_bool_iff.
    + intros H0 Hs Hd. unfold x1.
      rewrite <- (Qplus_0_r 0). apply Qplus_le_compat; [exact H0|].
      apply Qmult_le_0_compat; [|exact Hd].
      change 0%Q with (inject_Z 0). now rewrite <- Zle_Qle.
  - exists 0%Q. split; [reflexivity|]. split.
    + unfold track. change 0%Q with (inject_Z 0). rewrite <- Zle_Qle.
      unfold gsBoardColumns. lia.
    + intros _ _ _. apply Qle_refl.
Qed.

Lemma update_stays_on_track_witness :
  exists x1,
    Enemy.x (fst (Enemy.update images101 (num (1 # 10)) leaving_enemy (mkRandom draws 0)))
    = num x1
    /\ (x1 <= inject_Z (101 * gsBoardColumns))%Q.
Proof.
  destruct (update_stays_on_track images101 leaving_enemy (mkRandom draws 0)
              500 (1 # 10) 100) as (x1 & E & H & _).
  - reflexivity.
  - reflexivity.
  - unfold images101. lia.
  - exists x1. split; [exact E|exact H].
Defined.

(** ** checkCollisions *)

Lemma iter_crash_count (n : nat) (p : Player.t) (c : Z) :
  Player.collisionCount p = num c ->
  Player.collisionCount (Nat.iter n Player.crash p) = num (c + Z.of_nat n).
Proof.
  intros E. induction n as [|n IH].
  - change (Nat.iter 0 Player.crash p) with p. rewrite E. f_equal. lia.
  - change (Nat.iter (S n) Player.crash p) with (Player.crash (Nat.iter n Player.crash p)).
    rewrite crash_eq. cbn [Player.collisionCount]. rewrite IH.
    cbn [js_inc js_lift1]. f_equal. lia.
Qed.

Lemma iter_crash_home (n : nat) (p : Player.t) :
  Player.col (Nat.iter (S n) Player.crash p) = num 2
  /\ Player.row (Nat.iter (S n) Player.crash p) = num 5.
Proof. split; reflexivity. Qed.

Lemma hits_length (res : Resources) (p : Player.t) (es : list Enemy.t) :
  (List.length (hits res p es) <= List.length es)%nat.
Proof. apply filter_length_le. Qed.

(** X5: [checkCollisions] adds to the collision counter the number of
    enemies that are in the player's row and overlap it (every one of them,
    not only the first), which is at most the number of enemies.  With no
    such enemy the state is unchanged; with at least one the player is on the
    home cell.  The enemies, the loop and the trace are never touched. *)
Theorem checkCollisions_counts_hits (w : World) (c : Z) :
  Player.collisionCount (player w) = num c ->
  let n := List.length (hits (resources w) (player w) (allEnemies w)) in
  Player.collisionCount (player (checkCollisions w)) = num (c + Z.of_nat n)
  /\ (n <= List.length (allEnemies w))%nat
  /\ (n = 0%nat -> checkCollisions w = w)
  /\ (n <> 0%nat -> Player.col (player (checkCollisions w)) = num 2
                    /\ Player.row (player (checkCollisions w)) = num 5)
  /\ checkCollisions w = with_player (player (checkCollisions w)) w.
Proof.
  intros E n. rewrite checkCollisions_eq. fold n. cbn [player with_player].
  split; [now apply iter_crash_count|]. split; [apply hits_length|]. split; [|split].
  - intros ->. cbn [Nat.iter]. destruct w; reflexivity.
  - intros Hn. destruct n as [|n]; [contradiction|]. apply iter_crash_home.
  - reflexivity.
Qed.

Lemma checkCollisions_counts_hits_witness :
  Player.collisionCount (player clump_world) = num 0
  /\ Player.collisionCount (player (checkCollisions clump_world))
     = num (0 + Z.of_nat (List.length (hits (resources clump_world) (player clump_world)
                                            (allEnemies clump_world)))).
Proof.
  assert (H : Player.collisionCount (player clump_world) = num 0)
    by (vm_compute; reflexivity).
  split; [exact H|]. exact (proj1 (checkCollisions_counts_hits clump_world 0 H)).
Defined.

(** ** Player.handleInput *)

(** X6: opposite commands cancel each other exactly when the first one is
    not clamped: left then right (or up then down) brings the player back
    unless it stood on the left (top) edge, where the pair moves it one cell
    right (down); and symmetrically for right then left and down then up. *)
Theorem opposite_moves_cancel (p : Player.t) (c r : Z) :
  Player.col p = num c -> Player.row p = num r ->
  0 <= c <= gsBoardColumns - 1 -> 0 <= r <= 5 ->
  let go := fun d q => Player.handleInput (v_string d) q in
  (1 <= c -> go "right" (go "left" p) = p)
  /\ (c <= 3 -> go "left" (go "right" p) = p)
  /\ (1 <= r -> go "down" (go "up" p) = p)
  /\ (r <= 4 -> go "up" (go "down" p) = p)
  /\ (c = 0 -> Player.col (go "right" (go "left" p)) = num 1)
  /\ (r = 0 -> Player.row (go "down" (go "up" p)) = num 1).
Proof.
  intros Ec Er Hc Hr go. unfold go.
  destruct p as [pc pr px py pn ps]. cbn [Player.col Player.row] in Ec, Er. subst pc pr.
  repeat split; intros H;
    rewrite (handleInput_placed_eq _ (Player.mk (num c) (num r) px py pn ps) c r
               eq_refl eq_refl Hc Hr);
    cbn -[Z.max Z.min Z.add Z.sub];
    erewrite (handleInput_placed_eq _ (Player.mk (num _) (num _) px py pn ps) _ _
                eq_refl eq_refl)
      by (unfold gsBoardColumns in *; lia);
    cbn -[Z.max Z.min Z.add Z.sub]; unfold gsBoardColumns in *;
    repeat f_equal; lia.
Qed.

Lemma opposite_moves_cancel_witness :
  Player.handleInput (v_string "right")
    (Player.handleInput (v_string "left") (Player.goToHome Player.new))
  = Player.goToHome Player.new.
Proof.
  refine (proj1 (opposite_moves_cancel (Player.goToHome Player.new) 2 5 _ _ _ _) _).
  - reflexivity.
  - reflexivity.
  - unfold gsBoardColumns. lia.
  - lia.
  - lia.
Defined.

(** ** The outcome of a tick *)

Lemma entities_out_quiet (w : World) :
  banners (entities_out w) = [] /\ filter scheduling (entities_out w) = [].
Proof.
  unfold entities_out. rewrite banners_app, filter_app. cbn [banners flat_map Player_render
    filter scheduling app]. rewrite !app_nil_r.
  induction (allEnemies w) as [|e es [IH1 IH2]]; [split; reflexivity|].
  cbn [map]. split.
  - exact IH1.
  - cbn [filter Enemy_render scheduling]. exact IH2.
Qed.

Lemma board_out_scheduling (w : World) : filter scheduling (board_out w) = [].
Proof. apply filter_scheduling_nil, board_out_not_scheduling. Qed.

Lemma gameOver_output (outcome : string) (w : World) :
  banners (output (gameOver outcome) w) = [gameOver_message outcome]
  /\ filter scheduling (output (gameOver outcome) w)
     = (if js_truthy (requestId w) then [cancelAnimationFrame (requestId w)] else [])
  /\ gameOver outcome w = stopped w (output (gameOver outcome) w).
Proof.
  destruct (gameOver_stopped outcome w) as (out & E & B & S).
  rewrite (output_stopped _ _ _ E). rewrite S, stopGame_out_scheduling. auto.
Qed.

Lemma status_out_spec (w : World) :
  banners (status_out w)
  = (if lost_condition w then [gameOver_message "lost"] else [])
    ++ (if won_condition w then [gameOver_message "won"] else [])
  /\ filter scheduling (status_out w)
     = (if lost_condition w || won_condition w
        then if js_truthy (requestId w) then [cancelAnimationFrame (requestId w)] else []
        else [])
  /\ checkGameStatus w
     = (if lost_condition w || won_condition w then stopped w (status_out w) else w).
Proof.
  assert (C : checkGameStatus w
              = if lost_condition w || won_condition w then stopped w (status_out w) else w).
  { destruct (checkGameStatus_stopped w) as (out & E & _).
    destruct (lost_condition w || won_condition w); [|exact E].
    pose proof (checkGameStatus_trace w) as T. rewrite E in T. unfold stopped in T.
    cbn [trace] in T. apply app_inv_head in T. now rewrite E, T. }
  split; [|split; [|exact C]].
  - unfold status_out. rewrite banners_app.
    destruct (lost_condition w), (won_condition w); cbn [banners flat_map app];
      rewrite ?(proj1 (gameOver_output _ _)); reflexivity.
  - unfold status_out. rewrite filter_app.
    destruct (lost_condition w) eqn:L, (won_condition w) eqn:V; cbn [orb filter app].
    + rewrite !(proj1 (proj2 (gameOver_output _ _))).
      rewrite (proj2 (proj2 (gameOver_output "lost" w))). unfold stopped at 1 2. fields.
      rewrite stopped_requestId_falsy. apply app_nil_r.
    + rewrite (proj1 (proj2 (gameOver_output _ _))). apply app_nil_r.
    + apply (proj1 (proj2 (gameOver_output _ _))).
    + reflexivity.
Qed.

Lemma halted_not_looping (w : World) : halted w -> looping w -> False.
Proof. intros (Hf & _) (id & Hf' & _). rewrite Hf in Hf'. discriminate. Qed.

(** A tick of a game in progress. *)
Lemma tick_outcome (now id : Z) (w : World) :
  frames w = [] -> requestId w = num id -> id <> 0 -> buttons w = buttons_playing ->
  0 < nextFrame w ->
  let u := update (elapsed now w) w in
  let w' := main now w in
  player w' = player u /\ allEnemies w' = allEnemies u /\ random w' = random u
  /\ lastTime w' = num now
  /\ tick_banners now w
     = (if lost_condition u then [gameOver_message "lost"] else [])
       ++ (if won_condition u then [gameOver_message "won"] else [])
  /\ (if lost_condition u || won_condition u
      then halted w' /\ requestId w' = undefined /\ nextFrame w' = nextFrame w
           /\ tick_scheduling now w = [cancelAnimationFrame (num id)]
      else looping w' /\ frames w' = [nextFrame w] /\ requestId w' = num (nextFrame w)
           /\ tick_scheduling now w = [requestAnimationFrame (nextFrame w)]).
Proof.
  intros Hf Hr Hid Hb Hn u w'. unfold w', tick_banners, tick_scheduling, output.
  rewrite main_eq. fold u.
  destruct (update_updated (elapsed now w) w) as (es & g & Eu & _). fold u in Eu.
  assert (Tu : trace u = trace w) by now rewrite Eu.
  assert (Ru : requestId u = num id) by now rewrite Eu.
  assert (Fu : frames u = []) by now rewrite Eu.
  assert (Bu : buttons u = buttons_playing) by now rewrite Eu.
  assert (Nu : nextFrame u = nextFrame w) by now rewrite Eu.
  clear Eu. rewrite render_emit.
  set (r := emit (board_out u ++ entities_out u) u).
  assert (Lr : lost_condition r = lost_condition u) by reflexivity.
  assert (Vr : won_condition r = won_condition u) by reflexivity.
  destruct (status_out_spec r) as (SB & SS & ->). rewrite Lr, Vr in *.
  generalize dependent (status_out r). intros so SB SS.
  assert (T : js_truthy (num id) = true).
  { cbn. now destruct (Z.eqb_spec id 0). }
  change (requestId r) with (requestId u) in SS. rewrite Ru, T in SS.
  destruct (entities_out_quiet u) as [EB ES].
  destruct (lost_condition u || won_condition u) eqn:C.
  - unfold scheduled, stopped, stopped_requestId, stopped_frames, r, emit. fields.
    rewrite Ru, T, Fu. cbn [js_defined filter]. unfold with_lastTime, halted. fields.
    rewrite Tu, <- !app_assoc, skipn_length_app.
    rewrite !banners_app, !filter_app, banners_board_out, board_out_scheduling, EB, ES, SB, SS.
    cbn [app js_truthy]. repeat split; auto.
  - unfold scheduled, r, emit. fields. rewrite Ru. cbn [js_defined]. fields.
    unfold looping. fields. rewrite Fu, Nu, Tu, <- !app_assoc, skipn_length_app.
    apply orb_false_elim in C. destruct C as [L V]. rewrite L, V.
    rewrite !banners_app, !filter_app, banners_board_out, board_out_scheduling, EB, ES.
    cbn [app banners flat_map filter scheduling].
    split; [reflexivity|]. split; [reflexivity|]. split; [reflexivity|].
    split; [reflexivity|]. split; [reflexivity|].
    split; [|split; [reflexivity|split; reflexivity]].
    exists (nextFrame w). split; [reflexivity|]. split; [reflexivity|].
    split; [lia|exact Bu].
Qed.

(** ** The entities in the reachable states *)

Lemma forEach_length (cb : Enemy.t -> Random -> Enemy.t * Random)
      (es : list Enemy.t) (g : Random) :
  List.length (fst (Array_forEach cb es g)) = List.length es.
Proof.
  revert g. induction es as [|e es IH]; intros g; [reflexivity|].
  cbn [Array_forEach]. destruct (cb e g) as [e' g1]. specialize (IH g1).
  destruct (Array_forEach cb es g1) as [es' g2]. cbn [fst List.length] in *. now rewrite IH.
Qed.

Lemma main_entities (now : Z) (w : World) :
  player (main now w) = player (update (elapsed now w) w)
  /\ allEnemies (main now w) = allEnemies (update (elapsed now w) w).
Proof.
  rewrite main_eq, render_emit.
  set (r := emit _ (update (elapsed now w) w)).
  destruct (status_out_spec r) as (_ & _ & ->).
  unfold scheduled, with_lastTime.
  destruct (lost_condition r || won_condition r);
    match goal with |- context [js_defined ?a] => destruct (js_defined a) end;
    split; reflexivity.
Qed.

(** The entities after [update]. *)
Lemma update_entities (dt : js Q) (w : World) :
  let u := update dt w in
  List.length (allEnemies u) = List.length (allEnemies w)
  /\ (random_ok (draw (random w)) -> Forall in_hazard_row (allEnemies w) ->
      Forall in_hazard_row (allEnemies u))
  /\ (placed (player w) -> placed (player u))
  /\ exists n, (n <= List.length (allEnemies w))%nat
               /\ player u = Nat.iter n Player.crash (Player.update (resources w) (player w)).
Proof.
  intros u. unfold u.
  destruct (update_updated dt w) as (es & g & -> & E). unfold updated. fields.
  pose proof (forEach_length (Enemy.update (resources w) dt) (allEnemies w) (random w)) as L.
  pose proof (forEach_update (resources w) dt (allEnemies w) (random w)) as [_ R].
  rewrite <- E in L, R. cbn [fst] in L, R.
  split; [exact L|]. split; [exact R|]. split.
  - intros (c & r & Ec & Er & Hc & Hr).
    match goal with |- placed (Nat.iter ?m _ _) => destruct m as [|m'] end.
    + exists c, r. auto.
    + exists 2, 5. unfold gsBoardColumns. repeat split; lia.
  - eexists. split; [|reflexivity]. rewrite <- L. apply hits_length.
Qed.

Lemma startGame_entities (t0 t1 : Z) (w : World) :
  0 < nextFrame w -> random_ok (draw (random w)) -> frames w = [] ->
  List.length (allEnemies w) = gsEnemyCount ->
  entities_ok (startGame t0 t1 w).
Proof.
  intros Hn Hg Hf Hl.
  destruct (startGame_loops t0 t1 w Hn Hg Hf) as (_ & _ & En & Ec & Er).
  assert (A : List.length (allEnemies (startGame t0 t1 w)) = gsEnemyCount
              /\ Forall in_hazard_row (allEnemies (startGame t0 t1 w))).
  { rewrite startGame_eq. rewrite (proj2 (main_entities t1 (started t0 w))).
    destruct (update_entities (elapsed t1 (started t0 w)) (started t0 w)) as (L & R & _).
    destruct (forEach_spawn (allEnemies w) (random w) Hg) as [Hs Hd].
    split.
    - rewrite L. unfold started. fields. now rewrite forEach_length.
    - apply R; unfold started; fields; [now rewrite Hd|exact Hs]. }
  destruct A as [A1 A2]. split; [exact A1|]. split.
  - right. exists 0. split; [exact En|]. unfold gsCollisionLimit, gsEnemyCount. cbn. lia.
  - intros _. split; [exact A2|]. split.
    + exists 2, 5. unfold gsBoardColumns. repeat split; auto; lia.
    + exists 0. split; [exact En|]. unfold gsCollisionLimit. lia.
Qed.

Lemma step_entities (e : Event) (w w' : World) :
  invariant w -> entities_ok w -> step e w = Some w' -> entities_ok w'.
Proof.
  intros Hi (Hl & Hc & Hp). pose proof Hi as (_ & Hn & Hg & Hlp).
  destruct e as [t0 t1|t0 t1| |k|now]; cbn [step].
  - (* Start *)
    destruct (disabled w buttonStart) eqn:Eb; [discriminate|]. intros [= <-].
    destruct Hlp as [(Hf & _)|(id & _ & _ & _ & Hb)].
    + now apply startGame_entities.
    + unfold disabled in Eb. rewrite Hb in Eb. discriminate.
  - (* Reset *)
    destruct (disabled w buttonReset); [discriminate|]. intros [= <-].
    destruct (stopGame_halts w Hi) as [(_ & Hn' & Hg' & _) (Hf & _)].
    unfold resetGame. apply startGame_entities; auto. now rewrite stopGame_eq.
  - (* Stop *)
    destruct (disabled w buttonStop); [discriminate|]. intros [= <-].
    destruct (stopGame_halts w Hi) as [_ Hh].
    split; [now rewrite stopGame_eq|]. split; [unfold counter_ok; now rewrite stopGame_eq|].
    intros Hlo. destruct (halted_not_looping _ Hh Hlo).
  - (* a key *)
    intros [= <-]. split; [exact Hl|]. split; [|].
    + unfold counter_ok, keyup. cbn [player with_player].
      rewrite handleInput_eq. exact Hc.
    + intros Hlo. destruct (Hp Hlo) as (H1 & H2 & H3). split; [exact H1|]. split.
      * now apply handleInput_placed.
      * unfold keyup. cbn [player with_player]. rewrite handleInput_eq. exact H3.
  - (* an animation frame *)
    destruct (frames w) as [|id rest] eqn:Ef; [discriminate|]. intros [= <-].
    destruct Hlp as [(Hf & _)|(id' & Hf & Hr & Hid & Hb)]; rewrite Ef in Hf;
      [discriminate|]. injection Hf as -> ->.
    assert (Hlo : looping w) by (exists id'; auto).
    destruct (Hp Hlo) as (H1 & H2 & c & Ec & Hcb).
    set (w0 := with_frames [] w).
    destruct (tick_outcome now id' w0 eq_refl Hr Hid Hb Hn) as (Tp & Te & _ & _ & _ & To).
    destruct (update_entities (elapsed now w0) w0) as (L & R & P & n & Hnl & En).
    set (u := update (elapsed now w0) w0) in *.
    assert (Cu : Player.collisionCount (player u) = num (c + Z.of_nat n)).
    { rewrite En. now apply iter_crash_count. }
    change (allEnemies w0) with (allEnemies w) in *.
    split; [now rewrite Te, L|]. split.
    + unfold counter_ok. rewrite Tp. right. exists (c + Z.of_nat n). split; [exact Cu|].
      rewrite Hl in Hnl. unfold gsCollisionLimit, gsEnemyCount in *. lia.
    + intros Hlo'. unfold playing_ok. rewrite Tp, Te.
      destruct (lost_condition u || won_condition u) eqn:C.
      * destruct (halted_not_looping _ (proj1 To) Hlo').
      * apply orb_false_elim in C. destruct C as [Lc _].
        split; [apply R; assumption|]. split; [apply P; exact H2|].
        exists (c + Z.of_nat n). split; [exact Cu|].
        unfold lost_condition in Lc. rewrite Cu in Lc. cbn [js_rel] in Lc.
        unfold gsCollisionLimit in *. rewrite Z.geb_leb in Lc. apply Z.leb_gt in Lc. lia.
Qed.

Lemma reachable_entities (w : World) : reachable w -> invariant w /\ entities_ok w.
Proof.
  induction 1 as [res rnd Hr|w w' e Hw [IH1 IH2] Hs].
  - split; [now apply initialWorld_invariant|].
    unfold initialWorld. rewrite readyStart_eq. split; [reflexivity|]. split.
    + left. reflexivity.
    + intros (id & Hf & _). discriminate.
  - split; [exact (step_invariant e w w' IH1 Hs)|exact (step_entities e w w' IH1 IH2 Hs)].
Qed.

Lemma overdrawn_world_reachable : reachable overdrawn_world.
Proof.
  apply (run_reachable second_clump_tick world0); [exact world0_reachable|].
  vm_compute. reflexivity.
Qed.

(** X7: in every reachable state the loop is in one of two conditions.
    Either no frame is pending, the game is not in progress and Start is the
    only enabled button; or exactly one frame is pending, [requestId] is its
    (non-zero) handle and Start is the only disabled button.  There are never
    two pending frames, and the buttons always tell whether a game runs. *)
Theorem one_loop_at_most (w : World) :
  reachable w ->
  0 < nextFrame w
  /\ ((frames w = [] /\ inProgress w = false /\ buttons w = buttons_idle)
      \/ (exists id, frames w = [id] /\ requestId w = num id /\ id <> 0
                     /\ inProgress w = true /\ buttons w = buttons_playing)).
Proof.
  intros Hw. destruct (reachable_entities w Hw) as [(_ & Hn & _ & Hl) _].
  split; [exact Hn|]. destruct Hl as [H|(id & Hf & Hr & Hid & Hb)]; [left; exact H|].
  right. exists id. unfold inProgress. rewrite Hr. cbn [js_truthy].
  destruct (Z.eqb_spec id 0); [contradiction|]. auto.
Qed.

Lemma one_loop_at_most_witness :
  reachable running_world /\ 0 < nextFrame running_world.
Proof.
  split; [exact running_world_reachable|].
  exact (proj1 (one_loop_at_most running_world running_world_reachable)).
Defined.

(** X8: the enemies are recycled, never created or destroyed: every
    reachable state has exactly [gsEnemyCount] = 3 of them. *)
Theorem enemy_count_is_constant (w : World) :
  reachable w -> List.length (allEnemies w) = gsEnemyCount /\ gsEnemyCount = 3%nat.
Proof.
  intros Hw. destruct (reachable_entities w Hw) as [_ (Hl & _)]. split; [exact Hl|reflexivity].
Qed.

Lemma enemy_count_is_constant_witness :
  reachable overdrawn_world /\ List.length (allEnemies overdrawn_world) = gsEnemyCount.
Proof.
  assert (H : reachable overdrawn_world) by exact overdrawn_world_reachable.
  split; [exact H|exact (proj1 (enemy_count_is_constant overdrawn_world H))].
Defined.

(** The facts about a tick taken from a reachable state. *)
Lemma frame_step (w w' : World) (now : Z) :
  reachable w -> step (AnimationFrame now) w = Some w' ->
  exists id c n,
    frames w = [id] /\ requestId w = num id /\ id <> 0
    /\ Player.collisionCount (player w) = num c /\ 0 <= c < gsCollisionLimit
    /\ placed (player w)
    /\ w' = main now (with_frames [] w)
    /\ (n <= gsEnemyCount)%nat
    /\ n = List.length (hits (resources w) (Player.update (resources w) (player w))
                             (allEnemies w'))
    /\ player w' = Nat.iter n Player.crash (Player.update (resources w) (player w))
    /\ Forall in_hazard_row (allEnemies w')
    /\ 0 < nextFrame w.
Proof.
  intros Hw. destruct (reachable_entities w Hw) as [(_ & Hn & Hg & Hl) (Hlen & _ & Hp)].
  cbn [step]. destruct (frames w) as [|id rest] eqn:Ef; [discriminate|]. intros [= <-].
  destruct Hl as [(Hf & _)|(id' & Hf & Hr & Hid & Hb)]; rewrite Ef in Hf; [discriminate|].
  injection Hf as -> ->.
  assert (Hlo : looping w) by (exists id'; auto).
  destruct (Hp Hlo) as (H1 & H2 & c & Ec & Hc).
  set (w0 := with_frames [] w).
  destruct (main_entities now w0) as [Tp Te].
  destruct (update_updated (elapsed now w0) w0) as (es & g & Eu & E).
  pose proof (forEach_length (Enemy.update (resources w0) (elapsed now w0))
                (allEnemies w0) (random w0)) as L.
  pose proof (forEach_update (resources w0) (elapsed now w0) (allEnemies w0) (random w0))
    as [_ R].
  rewrite <- E in L, R. cbn [fst] in L, R. rewrite Eu in Tp, Te. unfold updated in Tp, Te.
  cbn [player allEnemies] in Tp, Te.
  change (resources w0) with (resources w) in *. change (player w0) with (player w) in *.
  change (allEnemies w0) with (allEnemies w) in *. change (random w0) with (random w) in *.
  exists id', c, (List.length (hits (resources w) (Player.update (resources w) (player w)) es)).
  split; [reflexivity|]. split; [exact Hr|]. split; [exact Hid|]. split; [exact Ec|].
  split; [exact Hc|]. split; [exact H2|]. split; [reflexivity|]. split.
  { rewrite <- Hlen, <- L. apply hits_length. }
  split; [now rewrite Te|]. split; [exact Tp|]. split; [|exact Hn].
  rewrite Te. now apply R.
Qed.

Lemma hits_safe_row (res : Resources) (p : Player.t) (es : list Enemy.t) (r : Z) :
  Player.y p = num (row_y r) -> safe_row r ->
  Forall in_hazard_row es -> hits res p es = [].
Proof.
  intros Ey Hr. induction 1 as [|e es (k & Hk & Ek) _ IH]; [reflexivity|].
  cbn [hits filter]. fold (hits res p es). rewrite Ek, Ey. cbn [js_eq].
  unfold row_y, VISIBLE_ROW_HEIGHT, ROW_HEIGHT_OFFSET, safe_row in *.
  destruct (Z.eqb_spec (k * 83 - 25) (r * 83 - 25)); [lia|]. exact IH.
Qed.

(** X9: in every reachable state the collision counter is either not yet
    set (no game was started) or a number between 0 and 5, that is at most
    [gsCollisionLimit] - 1 + [gsEnemyCount]; while a game is in progress it is
    below the limit, the player is on a cell of the board, and every enemy
    is in one of the three stone rows. *)
Theorem counter_is_bounded (w : World) :
  reachable w ->
  (Player.collisionCount (player w) = undefined
   \/ exists c, Player.collisionCount (player w) = num c /\ 0 <= c <= 5)
  /\ (inProgress w = true ->
      (exists c, Player.collisionCount (player w) = num c /\ 0 <= c < gsCollisionLimit)
      /\ placed (player w)
      /\ Forall in_hazard_row (allEnemies w)).
Proof.
  intros Hw. destruct (reachable_entities w Hw) as [(_ & _ & _ & Hl) (_ & Hc & Hp)].
  split.
  - destruct Hc as [Hc|(c & Ec & Hc)]; [left; exact Hc|right].
    exists c. unfold gsCollisionLimit, gsEnemyCount in Hc. cbn in Hc. split; [exact Ec|lia].
  - intros Hi. destruct Hl as [(_ & Ht & _)|Hlo].
    + unfold inProgress in Hi. rewrite Ht in Hi. discriminate.
    + destruct (Hp Hlo) as (H1 & H2 & H3). auto.
Qed.

Lemma counter_is_bounded_witness :
  reachable overdrawn_world
  /\ (Player.collisionCount (player overdrawn_world) = undefined
      \/ exists c, Player.collisionCount (player overdrawn_world) = num c /\ 0 <= c <= 5).
Proof.
  split; [exact overdrawn_world_reachable|].
  exact (proj1 (counter_is_bounded overdrawn_world overdrawn_world_reachable)).
Defined.

Lemma safe_row_tick (w w' : World) (now r : Z) :
  reachable w -> step (AnimationFrame now) w = Some w' ->
  Player.row (player w) = num r -> safe_row r ->
  Player.collisionCount (player w') = Player.collisionCount (player w)
  /\ Player.col (player w') = Player.col (player w)
  /\ Player.row (player w') = num r
  /\ Player.y (player w') = num (row_y r).
Proof.
  intros Hw Hs Er Hr.
  destruct (frame_step w w' now Hw Hs)
    as (id & c & n & _ & _ & _ & _ & _ & _ & _ & _ & Hn & Ep & Hh & _).
  assert (Ey : Player.y (Player.update (resources w) (player w)) = num (row_y r)).
  { unfold Player.update. cbn [Player.y]. now rewrite Er. }
  rewrite (hits_safe_row _ _ _ r Ey Hr Hh) in Hn. subst n.
  change (Nat.iter (List.length (@nil Enemy.t)) Player.crash ?q) with q in Ep.
  rewrite Ep. unfold Player.update. cbn [Player.collisionCount Player.col Player.row Player.y].
  rewrite Er. repeat split.
Qed.

(** X10: the water row and the grass rows are safe.  In a tick taken from a
    reachable state with the player on row 0, 4 or 5, no collision is
    registered, whatever the positions of the enemies: the collision counter
    and the player's cell are what they were before the tick. *)
Theorem safe_rows_have_no_collision (w w' : World) (now r : Z) :
  reachable w -> step (AnimationFrame now) w = Some w' ->
  Player.row (player w) = num r -> safe_row r ->
  Player.collisionCount (player w') = Player.collisionCount (player w)
  /\ Player.col (player w') = Player.col (player w)
  /\ Player.row (player w') = num r
  /\ Player.y (player w') = num (row_y r).
Proof.
  intros Hw Hs Er Hr.
  destruct (frame_step w w' now Hw Hs)
    as (id & c & n & _ & _ & _ & _ & _ & _ & _ & _ & Hn & Ep & Hh & _).
  assert (Ey : Player.y (Player.update (resources w) (player w)) = num (row_y r)).
  { unfold Player.update. cbn [Player.y]. now rewrite Er. }
  rewrite (hits_safe_row _ _ _ r Ey Hr Hh) in Hn. subst n.
  change (Nat.iter (List.length (@nil Enemy.t)) Player.crash ?q) with q in Ep.
  rewrite Ep. unfold Player.update. cbn [Player.collisionCount Player.col Player.row Player.y].
  rewrite Er. repeat split.
Qed.

Lemma safe_rows_have_no_collision_witness :
  step (AnimationFrame 16) running_world = Some second_frame_world
  /\ Player.collisionCount (player second_frame_world)
     = Player.collisionCount (player running_world).
Proof.
  assert (S : step (AnimationFrame 16) running_world = Some second_frame_world)
    by (vm_compute; reflexivity).
  split; [exact S|].
  refine (proj1 (safe_rows_have_no_collision running_world second_frame_world 16 5
                   running_world_reachable S _ _)).
  - vm_compute. reflexivity.
  - right. right. reflexivity.
Defined.

(** The two terminal conditions after a tick taken from a reachable state. *)
Lemma frame_conditions (w w' : World) (now : Z) :
  reachable w -> step (AnimationFrame now) w = Some w' ->
  (lost_condition w' = true ->
   Player.col (player w') = num 2 /\ Player.row (player w') = num 5
   /\ won_condition w' = false)
  /\ (Player.row (player w) = num 0 -> lost_condition w' = false /\ won_condition w' = true).
Proof.
  intros Hw Hs.
  destruct (frame_step w w' now Hw Hs)
    as (id & c & n & _ & _ & _ & Ec & Hc & _ & _ & _ & Hn & Ep & Hh & _).
  split.
  - intros L. unfold lost_condition in L. rewrite Ep in L.
    rewrite (iter_crash_count n _ c) in L by exact Ec. cbn [js_rel] in L.
    rewrite Z.geb_leb in L. apply Z.leb_le in L. unfold gsCollisionLimit in *.
    destruct n as [|n]; [lia|]. unfold won_condition. rewrite Ep.
    destruct (iter_crash_home n (Player.update (resources w) (player w))) as [E2 E5].
    rewrite E2, E5. repeat split.
  - intros Er.
    destruct (safe_row_tick w w' now 0 Hw Hs Er (or_introl eq_refl)) as (Cn & _ & Rw & _).
    unfold lost_condition, won_condition. rewrite Cn, Ec, Rw. cbn [js_rel js_eq].
    unfold gsCollisionLimit in *. split; [|reflexivity].
    rewrite Z.geb_leb. apply Z.leb_gt. lia.
Qed.

(** The outcome of a tick taken from a reachable state. *)
Lemma frame_outcome (w w' : World) (now : Z) :
  reachable w -> step (AnimationFrame now) w = Some w' ->
  tick_banners now (with_frames [] w)
  = (if lost_condition w' then [gameOver_message "lost"] else [])
    ++ (if won_condition w' then [gameOver_message "won"] else [])
  /\ (if lost_condition w' || won_condition w'
      then halted w' /\ requestId w' = undefined
           /\ tick_scheduling now (with_frames [] w) = [cancelAnimationFrame (requestId w)]
      else looping w' /\ frames w' = [nextFrame w] /\ requestId w' = num (nextFrame w)
           /\ tick_scheduling now (with_frames [] w) = [requestAnimationFrame (nextFrame w)]).
Proof.
  intros Hw Hs.
  destruct (frame_step w w' now Hw Hs)
    as (id & c & n & Hf & Hr & Hid & _ & _ & _ & -> & _ & _ & _ & _ & Hn).
  destruct (reachable_entities w Hw) as [(_ & _ & _ & Hl) _].
  assert (Hb : buttons w = buttons_playing).
  { destruct Hl as [(Hf' & _)|(id' & _ & _ & _ & Hb)]; [|exact Hb].
    rewrite Hf in Hf'. discriminate. }
  destruct (tick_outcome now id (with_frames [] w) eq_refl Hr Hid Hb Hn)
    as (Tp & _ & _ & _ & TB & TO).
  set (u := update (elapsed now (with_frames [] w)) (with_frames [] w)) in *.
  assert (L : lost_condition (main now (with_frames [] w)) = lost_condition u)
    by (unfold lost_condition; now rewrite Tp).
  assert (V : won_condition (main now (with_frames [] w)) = won_condition u)
    by (unfold won_condition; now rewrite Tp).
  rewrite L, V, Hr. split; [exact TB|].
  destruct (lost_condition u || won_condition u).
  - destruct TO as (H1 & H2 & _ & H4). auto.
  - exact TO.
Qed.

(** X11: reaching the water wins.  In a tick taken from a reachable state
    with the player on row 0, the game ends: the only banner drawn is "Woo
    hoo! You won!", the only scheduling call cancels [requestId], no frame
    is pending afterwards, Start is the only enabled button, and the
    collision counter is unchanged. *)
Theorem reaching_the_water_wins (w w' : World) (now : Z) :
  reachable w -> step (AnimationFrame now) w = Some w' ->
  Player.row (player w) = num 0 ->
  tick_banners now (with_frames [] w) = ["Woo hoo! You won!"]
  /\ tick_scheduling now (with_frames [] w) = [cancelAnimationFrame (requestId w)]
  /\ frames w' = [] /\ inProgress w' = false /\ buttons w' = buttons_idle
  /\ Player.collisionCount (player w') = Player.collisionCount (player w).
Proof.
  intros Hw Hs Er.
  destruct (proj2 (frame_conditions w w' now Hw Hs) Er) as [L V].
  destruct (frame_outcome w w' now Hw Hs) as [TB TO]. rewrite L, V in *.
  cbn [orb app] in *. destruct TO as ((Hf & Ht & Hb) & _ & Hsch).
  split; [exact TB|]. split; [exact Hsch|]. split; [exact Hf|]. split; [exact Ht|].
  split; [exact Hb|].
  exact (proj1 (safe_row_tick w w' now 0 Hw Hs Er (or_introl eq_refl))).
Qed.

(** X12: a tick taken from a reachable state ends the game exactly when a
    terminal condition holds afterwards, and the two conditions never hold
    together: a player whose counter has reached the limit has just been
    sent home, so it is not on row 0.  Hence at most one banner is drawn, the
    lost banner with the player on the home cell; and when no condition
    holds the only scheduling call requests one new frame. *)
Theorem tick_ends_game_iff_terminal (w w' : World) (now : Z) :
  reachable w -> step (AnimationFrame now) w = Some w' ->
  lost_condition w' && won_condition w' = false
  /\ (lost_condition w' = true ->
      tick_banners now (with_frames [] w) = ["Game over - you lose"]
      /\ Player.col (player w') = num 2 /\ Player.row (player w') = num 5)
  /\ (won_condition w' = true ->
      tick_banners now (with_frames [] w) = ["Woo hoo! You won!"])
  /\ (lost_condition w' || won_condition w' = true ->
      frames w' = [] /\ inProgress w' = false /\ buttons w' = buttons_idle
      /\ tick_scheduling now (with_frames [] w) = [cancelAnimationFrame (requestId w)])
  /\ (lost_condition w' || won_condition w' = false ->
      frames w' = [nextFrame w] /\ inProgress w' = true /\ buttons w' = buttons_playing
      /\ tick_banners now (with_frames [] w) = []
      /\ tick_scheduling now (with_frames [] w) = [requestAnimationFrame (nextFrame w)]).
Proof.
  intros Hw Hs.
  destruct (frame_conditions w w' now Hw Hs) as [FL _].
  destruct (frame_outcome w w' now Hw Hs) as [TB TO].
  assert (X : lost_condition w' && won_condition w' = false).
  { destruct (lost_condition w') eqn:L; [|reflexivity]. now destruct (FL eq_refl) as (_ & _ & ->). }
  split; [exact X|]. split; [|split; [|split]].
  - intros L. destruct (FL L) as (E2 & E5 & V). rewrite L, V in TB. auto.
  - intros V. rewrite V in X, TB. rewrite andb_true_r in X. now rewrite X in TB.
  - intros C. rewrite C in TO. destruct TO as ((Hf & Ht & Hb) & _ & Hsch). auto.
  - intros C. rewrite C in TO. destruct TO as ((id & Hf & Hr & Hid & Hb) & Hf' & Hr' & Hsch).
    apply orb_false_elim in C. destruct C as [L V]. rewrite L, V in TB.
    split; [exact Hf'|]. split; [|auto].
    unfold inProgress. rewrite Hr. cbn [js_truthy]. now destruct (Z.eqb_spec id 0).
Qed.

Lemma water_world_reachable : reachable water_world.
Proof.
  apply (run_reachable [ClickStart 0 0; KeyUp 38; KeyUp 38; KeyUp 38; KeyUp 38; KeyUp 38]
           world0); [exact world0_reachable|].
  vm_compute. reflexivity.
Qed.

Lemma water_world_step : step (AnimationFrame 2000) water_world = Some won_world.
Proof. vm_compute. reflexivity. Qed.

Lemma reaching_the_water_wins_witness :
  Player.row (player water_world) = num 0
  /\ tick_banners 2000 (with_frames [] water_world) = ["Woo hoo! You won!"]
  /\ frames won_world = [].
Proof.
  assert (R : Player.row (player water_world) = num 0) by (vm_compute; reflexivity).
  pose proof (reaching_the_water_wins water_world won_world 2000 water_world_reachable
                water_world_step R) as T.
  split; [exact R|]. split; [exact (proj1 T)|exact (proj1 (proj2 (proj2 T)))].
Defined.

Lemma tick_ends_game_iff_terminal_witness :
  won_condition won_world = true
  /\ tick_banners 2000 (with_frames [] water_world) = ["Woo hoo! You won!"]
  /\ lost_condition won_world && won_condition won_world = false.
Proof.
  assert (V : won_condition won_world = true) by (vm_compute; reflexivity).
  pose proof (tick_ends_game_iff_terminal water_world won_world 2000 water_world_reachable
                water_world_step) as T.
  split; [exact V|]. split; [exact (proj1 (proj2 (proj2 T)) V)|exact (proj1 T)].
Defined.

(** ** The score *)

Lemma scores_app (l k : list Effect) : scores (l ++ k) = scores l ++ scores k.
Proof. apply flat_map_app. Qed.

Lemma scores_drawImage (l : list Effect) :
  (forall e, In e l -> exists img x y, e = drawImage img x y) -> scores l = [].
Proof.
  induction l as [|a l IH]; intros H; [reflexivity|].
  destruct (H a (or_introl eq_refl)) as (img & x & y & ->).
  simpl. apply IH. intros e He. apply H. now right.
Qed.

Lemma scores_board_out (w : World) :
  scores (board_out w)
  = if js_truthy (requestId w) then [score_text (Player.collisionCount (player w))] else [].
Proof.
  unfold board_out. rewrite scores_app, (scores_drawImage (board_tiles w)).
  - unfold score_out. destruct (js_truthy (requestId w)); reflexivity.
  - apply board_tiles_drawImage.
Qed.

Lemma scores_entities_out (w : World) : scores (entities_out w) = [].
Proof.
  apply scores_drawImage. unfold entities_out. intros e He. apply in_app_or in He.
  destruct He as [He|[<-|[]]].
  - apply in_map_iff in He. destruct He as (en & <- & _). unfold Enemy_render. eauto.
  - unfold Player_render. eauto.
Qed.

Lemma scores_stopGame_out (w : World) : scores (stopGame_out w) = [].
Proof.
  unfold stopGame_out, readyStart_out.
  destruct (js_truthy (requestId w)) eqn:T.
  - change (scores ([cancelAnimationFrame (requestId w)]
                    ++ (board_out (with_requestId undefined w)
                        ++ [set_disabled buttonStart false; set_disabled buttonReset true;
                            set_disabled buttonStop true])) = []).
    rewrite !scores_app, scores_board_out. reflexivity.
  - rewrite scores_app, scores_board_out, T. reflexivity.
Qed.

Lemma scores_gameOver (outcome : string) (w : World) :
  scores (output (gameOver outcome) w) = [].
Proof.
  destruct (gameOver_eq outcome w) as (banner & _ & _ & E).
  assert (B : scores banner = []).
  { pose proof E as E'. unfold gameOver, displayStatus in E'. rewrite stopGame_eq in E'.
    destruct (String.eqb outcome "won");
      apply (f_equal trace) in E'; unfold emit, stopped in E'; cbn [trace] in E';
      apply app_inv_head in E'; now rewrite <- E'. }
  unfold output. rewrite E, stopGame_eq. unfold emit, stopped. fields.
  rewrite <- app_assoc, skipn_length_app, scores_app, scores_stopGame_out, B. reflexivity.
Qed.

Lemma scores_status_out (w : World) : scores (status_out w) = [].
Proof.
  unfold status_out. rewrite scores_app.
  destruct (lost_condition w), (won_condition w); rewrite ?scores_gameOver; reflexivity.
Qed.

Lemma main_trace (now : Z) (w : World) :
  let u := update (elapsed now w) w in
  let s := checkGameStatus (render u) in
  trace (main now w)
  = trace w ++ board_out u ++ entities_out u ++ status_out (render u)
            ++ (if js_defined (requestId s) then [requestAnimationFrame (nextFrame s)] else []).
Proof.
  intros u s. rewrite main_eq. fold u. fold s.
  assert (Tu : trace u = trace w).
  { unfold u. destruct (update_updated (elapsed now w) w) as (es & g & -> & _). reflexivity. }
  assert (Ts : trace s = trace w ++ board_out u ++ entities_out u ++ status_out (render u)).
  { unfold s. rewrite checkGameStatus_trace. rewrite render_emit at 1. unfold emit. fields.
    now rewrite Tu, <- !app_assoc. }
  unfold scheduled. destruct (js_defined (requestId s)).
  - fields. now rewrite Ts, <- !app_assoc.
  - unfold with_lastTime. fields. now rewrite Ts, !app_nil_r.
Qed.

Lemma main_scores (now : Z) (w : World) :
  scores (output (main now) w)
  = if js_truthy (requestId w)
    then [score_text (Player.collisionCount (player (main now w)))] else [].
Proof.
  unfold output. rewrite main_trace, skipn_length_app.
  rewrite !scores_app, scores_board_out, scores_entities_out, scores_status_out.
  rewrite (proj1 (main_entities now w)).
  destruct (update_updated (elapsed now w) w) as (es & g & -> & _). unfold updated. fields.
  destruct (js_truthy (requestId w));
    match goal with |- context [js_defined ?a] => destruct (js_defined a) end; reflexivity.
Qed.

(** X13: every tick of a game in progress draws the score exactly once, and
    the number shown is the limit minus the counter as it is after the
    collisions of that tick: a number between -2 and 3.  (It is negative when
    several enemies hit the player in the tick that uses up the last lives.) *)
Theorem every_tick_draws_the_score (w w' : World) (now : Z) :
  reachable w -> step (AnimationFrame now) w = Some w' ->
  exists c,
    Player.collisionCount (player w') = num c
    /\ tick_scores now (with_frames [] w)
       = [("Lives remaining: " ++ NilZero.string_of_int (Z.to_int (gsCollisionLimit - c)))%string]
    /\ -2 <= gsCollisionLimit - c <= 3.
Proof.
  intros Hw Hs.
  destruct (frame_step w w' now Hw Hs)
    as (id & c & n & _ & Hr & Hid & Ec & Hc & _ & -> & Hn & _ & Ep & _ & _).
  exists (c + Z.of_nat n). split; [|split].
  - rewrite Ep. now apply iter_crash_count.
  - unfold tick_scores. rewrite main_scores. cbn [requestId with_frames]. rewrite Hr.
    cbn [js_truthy]. destruct (Z.eqb_spec id 0); [contradiction|]. cbn [negb].
    change (main now (with_frames [] w)) with (main now (with_frames [] w)).
    rewrite Ep, (iter_crash_count n _ c) by exact Ec. reflexivity.
  - unfold gsCollisionLimit, gsEnemyCount in *. lia.
Qed.

Lemma every_tick_draws_the_score_witness :
  exists c,
    Player.collisionCount (player won_world) = num c
    /\ tick_scores 2000 (with_frames [] water_world)
       = [("Lives remaining: " ++ NilZero.string_of_int (Z.to_int (gsCollisionLimit - c)))%string]
    /\ -2 <= gsCollisionLimit - c <= 3.
Proof.
  exact (every_tick_draws_the_score water_world won_world 2000 water_world_reachable
           water_world_step).
Defined.

(** ** Start, Reset and Stop *)

Lemma since_trans (w w1 w2 : World) (o1 o2 : list Effect) :
  trace w1 = trace w ++ o1 -> trace w2 = trace w1 ++ o2 -> since w w2 = o1 ++ o2.
Proof.
  intros E1 E2. unfold since. rewrite E2, E1, <- app_assoc. apply skipn_length_app.
Qed.

Lemma startGame_trace (t0 t1 : Z) (w : World) :
  exists out, trace (startGame t0 t1 w) = trace w ++ out /\ scores out = [].
Proof.
  rewrite startGame_eq, main_trace. unfold started at 1. fields.
  eexists. split; [rewrite <- app_assoc; reflexivity|].
  rewrite !scores_app, scores_board_out, scores_entities_out, scores_status_out.
  destruct (update_updated (elapsed t1 (started t0 w)) (started t0 w)) as (es & g & -> & _).
  unfold updated, started. fields. cbn [js_truthy Z.eqb negb].
  match goal with |- context [js_defined ?a] => destruct (js_defined a) end; reflexivity.
Qed.

(** X14: Start and Reset begin a game afresh from every reachable state in
    which they are enabled: the collision counter is 0, the player is on the
    home cell, every enemy is in a stone row, exactly one frame is pending
    with [requestId] as its handle, Reset and Stop are the enabled buttons.
    The score is not drawn by the first frame ([requestId] is still 0 when
    it is rendered). *)
Theorem start_and_reset_begin_a_game (w w' : World) (e : Event) (t0 t1 : Z) :
  reachable w ->
  e = ClickStart t0 t1 \/ e = ClickReset t0 t1 ->
  step e w = Some w' ->
  Player.collisionCount (player w') = num 0
  /\ Player.col (player w') = num 2 /\ Player.row (player w') = num 5
  /\ Forall in_hazard_row (allEnemies w')
  /\ (exists id, frames w' = [id] /\ requestId w' = num id /\ id <> 0)
  /\ buttons w' = buttons_playing
  /\ scores (since w w') = [].
Proof.
  intros Hw He Hs.
  assert (Hw' : reachable w') by exact (reachable_step w w' e Hw Hs).
  destruct (reachable_entities w Hw) as [Hi (Hlen & _)].
  pose proof Hi as (_ & Hn & Hg & Hl).
  destruct (reachable_entities w' Hw') as [_ (_ & _ & Hp')].
  assert (A : exists w1 o1, trace w1 = trace w ++ o1 /\ scores o1 = []
                            /\ w' = startGame t0 t1 w1
                            /\ 0 < nextFrame w1 /\ random_ok (draw (random w1))
                            /\ frames w1 = []).
  { destruct He as [-> | ->]; cbn [step] in Hs.
    - destruct (disabled w buttonStart) eqn:Eb; [discriminate|]. injection Hs as <-.
      exists w, []. rewrite app_nil_r.
      destruct Hl as [(Hf & _)|(id & _ & _ & _ & Hb)]; [auto 10|].
      unfold disabled in Eb. rewrite Hb in Eb. discriminate.
    - destruct (disabled w buttonReset); [discriminate|]. injection Hs as <-.
      destruct (stopGame_halts w Hi) as [(_ & Hn' & Hg' & _) (Hf & _)].
      exists (stopGame w), (stopGame_out w). unfold resetGame.
      split; [now rewrite stopGame_eq|]. split; [apply scores_stopGame_out|]. auto. }
  destruct A as (w1 & o1 & T1 & S1 & -> & Hn1 & Hg1 & Hf1).
  destruct (startGame_loops t0 t1 w1 Hn1 Hg1 Hf1) as (_ & Hlo & En & Ec & Er).
  destruct (Hp' Hlo) as (Hh & _).
  destruct (startGame_trace t0 t1 w1) as (o2 & T2 & S2).
  split; [exact En|]. split; [exact Ec|]. split; [exact Er|]. split; [exact Hh|].
  destruct Hlo as (id & Hf & Hr & Hid & Hb).
  split; [exists id; auto|]. split; [exact Hb|].
  rewrite (since_trans w w1 _ o1 o2 T1 T2), scores_app, S1, S2. reflexivity.
Qed.

Lemma start_and_reset_begin_a_game_witness :
  step (ClickStart 0 0) world0 = Some running_world
  /\ Player.collisionCount (player running_world) = num 0
  /\ scores (since world0 running_world) = [].
Proof.
  assert (S : step (ClickStart 0 0) world0 = Some running_world)
    by (vm_compute; reflexivity).
  pose proof (start_and_reset_begin_a_game world0 running_world (ClickStart 0 0) 0 0
                world0_reachable (or_introl eq_refl) S) as T.
  split; [exact S|].
  split; [exact (proj1 T)|exact (proj2 (proj2 (proj2 (proj2 (proj2 (proj2 T))))))].
Defined.

Lemma after_keys_frame (ks : list Z) (p : Player.t) :
  Player.x (after_keys ks p) = Player.x p
  /\ Player.y (after_keys ks p) = Player.y p
  /\ Player.collisionCount (after_keys ks p) = Player.collisionCount p
  /\ Player.sprite (after_keys ks p) = Player.sprite p.
Proof.
  revert p. induction ks as [|k ks IH]; intros p; [repeat split|].
  unfold after_keys in *. cbn [fold_left].
  destruct (IH (Player.handleInput (allowedKeys k) p)) as (H1 & H2 & H3 & H4).
  rewrite H1, H2, H3, H4, handleInput_eq. repeat split.
Qed.

Lemma run_keys (ks : list Z) (w : World) :
  run (map KeyUp ks) w = Some (with_player (after_keys ks (player w)) w).
Proof.
  revert w. induction ks as [|k ks IH]; intros w.
  - cbn. destruct w; reflexivity.
  - cbn [map run step]. rewrite IH. reflexivity.
Qed.

(** X15: a game that is not in progress is frozen.  In a reachable state
    with no game in progress (before the first start, after a stop, a win or
    a loss) no tick can run, and key presses change nothing but the player's
    cell: whatever keys are pressed, the collision counter, the pixel
    position, the enemies, the loop and the canvas stay as they are, and
    still no tick can run. *)
Theorem halted_game_is_frozen (w : World) (keyCodes : list Z) (now : Z) :
  reachable w -> inProgress w = false ->
  step (AnimationFrame now) w = None
  /\ exists w',
      run (map KeyUp keyCodes) w = Some w'
      /\ w' = with_player (after_keys keyCodes (player w)) w
      /\ Player.collisionCount (player w') = Player.collisionCount (player w)
      /\ Player.x (player w') = Player.x (player w)
      /\ Player.y (player w') = Player.y (player w)
      /\ allEnemies w' = allEnemies w /\ trace w' = trace w
      /\ inProgress w' = false
      /\ step (AnimationFrame now) w' = None.
Proof.
  intros Hw Hi. destruct (reachable_entities w Hw) as [(_ & _ & _ & Hl) _].
  assert (Hf : frames w = []).
  { destruct Hl as [(Hf & _)|(id & _ & Hr & Hid & _)]; [exact Hf|].
    unfold inProgress in Hi. rewrite Hr in Hi. cbn in Hi.
    destruct (Z.eqb_spec id 0); [contradiction|discriminate]. }
  assert (S : forall p, step (AnimationFrame now) (with_player p w) = None).
  { intros p. cbn [step with_player frames]. now rewrite Hf. }
  split; [cbn [step]; now rewrite Hf|].
  exists (with_player (after_keys keyCodes (player w)) w).
  destruct (after_keys_frame keyCodes (player w)) as (H1 & H2 & H3 & _).
  split; [apply run_keys|]. split; [reflexivity|]. cbn [player with_player].
  split; [exact H3|]. split; [exact H1|]. split; [exact H2|].
  split; [reflexivity|]. split; [reflexivity|]. split; [exact Hi|apply S].
Qed.

Lemma halted_game_is_frozen_witness :
  inProgress stopped_world = false
  /\ step (AnimationFrame 1000) stopped_world = None.
Proof.
  assert (R : reachable stopped_world).
  { apply (run_reachable [ClickStart 0 0; ClickStop] world0 stopped_world world0_reachable).
    vm_compute. reflexivity. }
  assert (H : inProgress stopped_world = false) by (vm_compute; reflexivity).
  split; [exact H|].
  exact (proj1 (halted_game_is_frozen stopped_world [38; 38] 1000 R H)).
Defined.

(** X16: [stopGame] cancels exactly the frames that are pending.  In every
    reachable state its scheduling calls are one [cancelAnimationFrame] for
    the pending frame when a game is in progress and none otherwise; it
    draws neither a score nor a banner (the score area is cleared), leaves
    the player and the enemies alone, and the state it returns has no game
    in progress. *)
Theorem stop_cancels_the_pending_frame (w : World) :
  reachable w ->
  filter scheduling (output stopGame w)
  = map (fun id => cancelAnimationFrame (num id)) (frames w)
  /\ scores (output stopGame w) = []
  /\ banners (output stopGame w) = []
  /\ In (clearRect 0 0 canvas_width 50) (output stopGame w)
  /\ requestId (stopGame w) = (if inProgress w then undefined else requestId w).
Proof.
  intros Hw. destruct (reachable_entities w Hw) as [(_ & _ & _ & Hl) _].
  rewrite (output_stopped stopGame w _ (stopGame_eq w)).
  rewrite stopGame_out_scheduling, scores_stopGame_out, stopGame_out_banners.
  split; [|split; [reflexivity|split; [reflexivity|split]]].
  - destruct Hl as [(Hf & Ht & _)|(id & Hf & Hr & Hid & _)].
    + now rewrite Ht, Hf.
    + rewrite Hf, Hr. cbn [js_truthy map]. now destruct (Z.eqb_spec id 0).
  - unfold stopGame_out, readyStart_out, board_out, score_out.
    destruct (js_truthy (requestId w)); [right|];
      apply in_or_app; left; apply in_or_app; right; apply in_or_app; left; now left.
  - rewrite stopGame_eq. reflexivity.
Qed.

Lemma stop_cancels_the_pending_frame_witness :
  reachable running_world
  /\ filter scheduling (output stopGame running_world)
     = map (fun id => cancelAnimationFrame (num id)) (frames running_world).
Proof.
  split; [exact running_world_reachable|].
  exact (proj1 (stop_cancels_the_pending_frame running_world running_world_reachable)).
Defined.

(** ** Rendering *)

(** X17: [render] changes nothing but the canvas, and draws in this order:
    the 30 tiles of the board row by row (the tile of row r and column c is
    the image of that row at x = c times its width and y = 83 r), the score
    area, every enemy in the order of [allEnemies], and the player last, on
    top of everything else. *)
Theorem render_draws_board_then_entities (w : World) (r c : Z) :
  0 <= r < 6 -> 0 <= c < gsBoardColumns ->
  let img := nth (Z.to_nat r) rowImages "" in
  List.length (board_tiles w) = 30%nat
  /\ nth_error (board_tiles w) (Z.to_nat (r * gsBoardColumns + c))
     = Some (drawImage img (num (inject_Z (c * resources w img)))
                       (num (inject_Z (r * VISIBLE_ROW_HEIGHT))))
  /\ output render w
     = board_tiles w ++ score_out w ++ map Enemy_render (allEnemies w)
                     ++ [Player_render (player w)]
  /\ forget_trace (render w) = forget_trace w.
Proof.
  intros Hr Hc img. unfold img, gsBoardColumns in *. split; [reflexivity|]. split.
  - assert (R : r = 0 \/ r = 1 \/ r = 2 \/ r = 3 \/ r = 4 \/ r = 5) by lia.
    assert (C : c = 0 \/ c = 1 \/ c = 2 \/ c = 3 \/ c = 4) by lia.
    destruct R as [->|[->|[->|[->|[->| ->]]]]];
      destruct C as [->|[->|[->|[-> | ->]]]]; reflexivity.
  - unfold output. rewrite render_emit. split.
    + unfold emit. fields. rewrite skipn_length_app.
      unfold board_out, entities_out. now rewrite <- !app_assoc.
    + reflexivity.
Qed.

Lemma render_draws_board_then_entities_witness :
  nth_error (board_tiles world0) 7
  = Some (drawImage "images/stone-block.png" (num (202 # 1)) (num (83 # 1))).
Proof.
  refine (proj1 (proj2 (render_draws_board_then_entities world0 1 2 _ _))).
  - lia.
  - unfold gsBoardColumns. lia.
Defined.

(** ** Time *)

Lemma main_lastTime (now : Z) (w : World) : lastTime (main now w) = num now.
Proof.
  rewrite main_eq. unfold scheduled, with_lastTime.
  match goal with |- context [js_defined ?a] => destruct (js_defined a) end; reflexivity.
Qed.

Lemma reachable_clock (w : World) :
  reachable w -> looping w -> exists t, lastTime w = num t.
Proof.
  induction 1 as [res rnd Hr|w w' e Hw IH Hs].
  - intros (id & Hf & _). unfold initialWorld in Hf. rewrite readyStart_eq in Hf. discriminate.
  - pose proof (reachable_invariant w Hw) as Hi. intros Hlo.
    destruct e as [t0 t1|t0 t1| |k|now]; cbn [step] in Hs.
    + destruct (disabled w buttonStart); [discriminate|]. injection Hs as <-.
      exists t1. rewrite startGame_eq. apply main_lastTime.
    + destruct (disabled w buttonReset); [discriminate|]. injection Hs as <-.
      exists t1. unfold resetGame. rewrite startGame_eq. apply main_lastTime.
    + destruct (disabled w buttonStop); [discriminate|]. injection Hs as <-.
      destruct (stopGame_halts w Hi) as [_ Hh]. destruct (halted_not_looping _ Hh Hlo).
    + injection Hs as <-. apply IH. exact Hlo.
    + destruct (frames w); [discriminate|]. injection Hs as <-.
      exists now. apply main_lastTime.
Qed.

(** X18: movement is measured in time, not in frames.  In a tick taken
    from a reachable state at clock reading [now], every enemy is updated
    with dt = (now - t) / 1000 seconds, where t is the clock reading of the
    previous tick (kept in [lastTime]); afterwards [lastTime] is [now]. *)
Theorem enemies_move_by_elapsed_time (w w' : World) (now : Z) :
  reachable w -> step (AnimationFrame now) w = Some w' ->
  exists t,
    lastTime w = num t
    /\ allEnemies w'
       = fst (Array_forEach (Enemy.update (resources w) (num (inject_Z (now - t) / 1000)%Q))
                            (allEnemies w) (random w))
    /\ lastTime w' = num now.
Proof.
  intros Hw Hs.
  destruct (frame_step w w' now Hw Hs)
    as (id & c & n & Hf & Hr & Hid & _ & _ & _ & -> & _).
  destruct (reachable_invariant w Hw) as (_ & _ & _ & Hl).
  assert (Hlo : looping w).
  { destruct Hl as [(Hf' & _)|Hlo]; [|exact Hlo]. rewrite Hf in Hf'. discriminate. }
  destruct (reachable_clock w Hw Hlo) as (t & Et).
  exists t. split; [exact Et|]. split; [|apply main_lastTime].
  rewrite (proj2 (main_entities now (with_frames [] w))).
  destruct (update_updated (elapsed now (with_frames [] w)) (with_frames [] w))
    as (es & g & -> & E).
  unfold updated. fields. unfold elapsed in E. cbn [lastTime with_frames] in E.
  rewrite Et in E. cbn [js_lift2 js_lift1 resources allEnemies random with_frames] in E.
  now rewrite <- E.
Qed.

Lemma enemies_move_by_elapsed_time_witness :
  exists t,
    lastTime running_world = num t
    /\ allEnemies second_frame_world
       = fst (Array_forEach (Enemy.update (resources running_world)
                                          (num (inject_Z (16 - t) / 1000)%Q))
                            (allEnemies running_world) (random running_world))
    /\ lastTime second_frame_world = num 16.
Proof.
  refine (enemies_move_by_elapsed_time running_world second_frame_world 16
            running_world_reachable _).
  vm_compute. reflexivity.
Defined.

(** ** The keyup listener in every reachable state *)






(** C9, counterexample: an array holding the string 'up' (or a String object)
    is not one of the four direction strings, yet [==] converts it to 'up'
    and [handleInput] moves the player of a running game from row 5 to
    row 4. *)
Lemma object_input_moves_the_player :
  (forall d, In d directions -> v_object (p_string "up") <> v_string d)
  /\ reachable running_world
  /\ Player.row (player running_world) = num 5
  /\ Player.row (Player.handleInput (v_object (p_string "up")) (player running_world))
     = num 4.
Proof.
  split; [intros d _; discriminate|]. split; [exact running_world_reachable|].
  split; vm_compute; reflexivity.
Qed.

(** C9 (as amended): in every reachable state, [handleInput] leaves the
    player as it is, column and row included, for every primitive value
    other than the four direction strings and for every object that does
    not convert to one of them; a key that is not an arrow key hands
    [undefined] to [handleInput], and the keyup listener then changes nothing
    at all.  An object that converts to a string is treated as that string,
    so one that converts to a direction string moves the player. *)
Theorem other_input_is_ignored (w : World) (v : value) (k : Z) (s : string) :
  reachable w ->
  (forall d, In d directions -> v <> v_string d) ->
  (forall d, In d directions -> v <> v_object (p_string d)) ->
  Player.handleInput v (player w) = player w
  /\ Player.col (Player.handleInput v (player w)) = Player.col (player w)
  /\ Player.row (Player.handleInput v (player w)) = Player.row (player w)
  /\ (~ In k arrowKeys -> allowedKeys k = v_undefined /\ keyup k w = w)
  /\ Player.handleInput (v_object (p_string s)) (player w)
     = Player.handleInput (v_string s) (player w).
Proof.
  intros Hw Hv Ho. apply reachable_invariant in Hw. destruct Hw as [Hp _].
  assert (Ev : forall d, In d directions -> eq_literal v d = false).
  { intros d Hd. destruct v as [| | | |t|[| | | |t]]; try reflexivity; cbn [eq_literal];
      apply String.eqb_neq; intros ->.
    - now apply (Hv d Hd).
    - now apply (Ho d Hd). }
  pose proof (handleInput_other v (player w) Hp Ev) as E.
  split; [exact E|]. rewrite E. split; [reflexivity|]. split; [reflexivity|]. split.
  - intros Hk.
    assert (U : allowedKeys k = v_undefined).
    { unfold allowedKeys, arrowKeys in *. cbn [In] in Hk.
      destruct (Z.eqb_spec k 37); [lia|]. destruct (Z.eqb_spec k 38); [lia|].
      destruct (Z.eqb_spec k 39); [lia|]. destruct (Z.eqb_spec k 40); [lia|].
      reflexivity. }
    split; [exact U|]. unfold keyup. rewrite U.
    rewrite (handleInput_other v_undefined (player w) Hp) by (intros d _; reflexivity).
    destruct w; reflexivity.
  - rewrite !handleInput_eq. reflexivity.
Qed.

Lemma other_input_is_ignored_witness :
  Player.handleInput v_undefined (player running_world) = player running_world
  /\ keyup 65 running_world = running_world.
Proof.
  assert (H : forall d, In d directions -> v_undefined <> v_string d)
    by (intros d _; discriminate).
  assert (H' : forall d, In d directions -> v_undefined <> v_object (p_string d))
    by (intros d _; discriminate).
  pose proof (other_input_is_ignored running_world v_undefined 65 "up"
                running_world_reachable H H') as T.
  split; [exact (proj1 T)|].
  refine (proj2 (proj1 (proj2 (proj2 (proj2 T))) _)).
  unfold arrowKeys. cbn [In]. lia.
Defined.
